(** * Runtime patching of alternative instruction sequences (arm64)

    A shallow embedding of [arch/arm64/kernel/alternative.c]: the relocation
    of position-dependent instructions ([address_needs_relocation_fixup],
    [get_alt_insn]), the patch loop ([__apply_alternatives]) and the polling
    protocol of [__apply_alternatives_multi_stop].

    Conventions.  C integers are values of [Z]; every conversion the C code
    performs (to [unsigned long], to [s32]) is written out with [u64] and
    [s32].  Memory is a map from addresses to bytes, read and written in
    little-endian order, and addressed by the pointers the code
    dereferences: a store through [lm_alias(origptr)] is a store at that
    address.  The descriptor table is read-only data: a region
    [begin .. end) is the list of its descriptors.  [BUG()] ends the run:
    pure functions return [None], stateful ones return [Bug st], where [st]
    is the machine state reached when [BUG()] was hit.  [stop_machine],
    which runs [__apply_alternatives_multi_stop] on every online CPU at
    once, is rendered by the CPUs taking their steps in any order on one
    shared state; the order in which the hardware makes the stores of one
    CPU visible to another is outside the model. *)

From Stdlib Require Import ZArith List Bool Lia.
From Stdlib.Strings Require Import Byte.
Import ListNotations.

Local Open Scope Z_scope.

(** ** Machine integers *)

Module MachInt.

(** Conversion to [unsigned long] (64 bits on arm64). *)
Definition u64 (x : Z) : Z := x mod 2 ^ 64.

(** Conversion to [s32]: reduction modulo 2^32 into [-2^31, 2^31). *)
Definition s32 (x : Z) : Z := (x + 2 ^ 31) mod 2 ^ 32 - 2 ^ 31.

(** The value of an [unsigned long] read as a [long]. *)
Definition s64 (x : Z) : Z := (x + 2 ^ 63) mod 2 ^ 64 - 2 ^ 63.

Definition SZ_4K : Z := 4096.

(** [#define align_down(x, a) ((unsigned long)(x) & ~(((unsigned long)(a)) - 1))] *)
Definition align_down (x a : Z) : Z :=
  Z.land (u64 x) (u64 (Z.lnot (u64 (u64 a - 1)))).

End MachInt.
Export MachInt.

(** ** Patch-site descriptors *)

(** [struct alt_instr].  [alt_self] is the address of the descriptor itself:
    [orig_offset] and [alt_offset] are relative to the address of the field
    that holds them. *)
Record alt_instr : Type := mk_alt_instr {
  alt_self    : Z;
  orig_offset : Z;   (* s32 *)
  alt_offset  : Z;   (* s32 *)
  cpufeature  : Z;   (* u16 *)
  orig_len    : Z;   (* u8  *)
  alt_len     : Z    (* u8  *)
}.

(** ** What the file takes from the rest of the kernel *)

(** The instruction codec of [asm/insn.h]: classification of an encoded
    instruction word and access to its embedded relative offset. *)
Class InsnCodec : Type := {
  aarch64_insn_is_branch_imm   : Z -> bool;
  aarch64_get_branch_offset    : Z -> Z;
  aarch64_set_branch_offset    : Z -> Z -> Z;
  aarch64_insn_is_adrp         : Z -> bool;
  aarch64_insn_adrp_get_offset : Z -> Z;
  aarch64_insn_adrp_set_offset : Z -> Z -> Z;
  aarch64_insn_is_adr          : Z -> bool;
  aarch64_insn_adr_get_offset  : Z -> Z;
  aarch64_insn_uses_literal    : Z -> bool
}.

(** The image: section predicates ([asm/sections.h], [kernel/extable.c]),
    the detected capabilities ([asm/cpufeature.h]), the linear-map alias of
    an image address ([lm_alias]), the layout of [struct alt_instr]
    ([asm/alternative.h]) and the linker-made table
    [__alt_instructions .. __alt_instructions_end]. *)
Class KernelImage : Type := {
  kernel_text_address  : Z -> bool;
  core_kernel_data     : Z -> bool;
  cpus_have_cap        : Z -> bool;
  lm_alias             : Z -> Z;
  offsetof_orig_offset : Z;
  offsetof_alt_offset  : Z;
  __alt_instructions   : list alt_instr
}.

(** ** Memory and machine state *)

Definition memory : Type := Z -> byte.

Definition Z_of_byte (b : byte) : Z := Z.of_N (Byte.to_N b).

(** The low eight bits of [v], as a byte. *)
Definition byte_of_Z (v : Z) : byte :=
  match Byte.of_N (Z.to_N (v mod 2 ^ 8)) with
  | Some b => b
  | None => x00
  end.

(** [le32_to_cpu( *p )]: the little-endian word held by the four bytes at [p]. *)
Definition load_le32 (m : memory) (p : Z) : Z :=
  Z_of_byte (m (u64 p)) + 2 ^ 8 * Z_of_byte (m (u64 (p + 1)))
  + 2 ^ 16 * Z_of_byte (m (u64 (p + 2)))
  + 2 ^ 24 * Z_of_byte (m (u64 (p + 3))).

Definition store8 (m : memory) (p v : Z) : memory :=
  fun a => if a =? u64 p then byte_of_Z v else m a.

(** [*p = cpu_to_le32(v)]. *)
Definition store_le32 (m : memory) (p v : Z) : memory :=
  store8 (store8 (store8 (store8 m p v) (p + 1) (v / 2 ^ 8))
                 (p + 2) (v / 2 ^ 16)) (p + 3) (v / 2 ^ 24).

(** What the code does to the outside, in program order. *)
Inductive event : Type :=
| EvPrInfo                           (* pr_info_once("patching kernel code\n") *)
| EvStore (addr insn : Z)            (* updptr[i] = cpu_to_le32(insn) *)
| EvFlushIcache (start stop : Z)     (* flush_icache_range(start, stop) *)
| EvWritePatched (v : Z)             (* WRITE_ONCE(patched, v) *)
| EvIsb.                             (* isb() *)

Record state : Type := mk_state {
  mem          : memory;
  printed_once : bool;       (* the static flag behind pr_info_once *)
  patched      : Z;          (* static int patched *)
  trace        : list event
}.

Inductive outcome : Type :=
| Done (st : state)          (* the function returned *)
| Bug (st : state)           (* BUG() / BUG_ON() fired in state [st] *)
| Polling (st : state).      (* still in while (!READ_ONCE(patched)) *)

Definition bind (o : outcome) (k : state -> outcome) : outcome :=
  match o with
  | Done st => k st
  | Bug st => Bug st
  | Polling st => Polling st
  end.

Notation "'do' st <- o ; k" := (bind o (fun st => k))
  (at level 10, st name, o at level 100, k at level 200).

Section Alternative.

Context {codec : InsnCodec} {image : KernelImage}.

(** [#define __ALT_PTR(a,f) ((void * )&(a)->f + (a)->f)] *)
Definition ALT_ORIG_PTR (a : alt_instr) : Z :=
  u64 (u64 (alt_self a + offsetof_orig_offset) + orig_offset a).

Definition ALT_REPL_PTR (a : alt_instr) : Z :=
  u64 (u64 (alt_self a + offsetof_alt_offset) + alt_offset a).

(** [None] is [BUG()]. *)
Definition address_needs_relocation_fixup (alt : alt_instr) (addr : Z)
  : option bool :=
  if kernel_text_address addr || core_kernel_data addr then Some true
  else
    let replptr := ALT_REPL_PTR alt in
    if (addr >=? replptr) && (addr <=? u64 (replptr + alt_len alt))
    then Some false
    else None.

Definition get_alt_insn (alt : alt_instr) (insnptr altinsnptr : Z)
           (m : memory) : option Z :=
  let insn := load_le32 m altinsnptr in
  if aarch64_insn_is_branch_imm insn then
    let offset := s32 (aarch64_get_branch_offset insn) in
    let target := u64 (altinsnptr + offset) in
    match address_needs_relocation_fixup alt target with
    | None => None
    | Some true =>
        let offset := s32 (u64 (target - insnptr)) in
        Some (aarch64_set_branch_offset insn offset)
    | Some false => Some insn
    end
  else if aarch64_insn_is_adrp insn then
    let orig_offset := s32 (aarch64_insn_adrp_get_offset insn) in
    let target := u64 (align_down altinsnptr SZ_4K + orig_offset) in
    match address_needs_relocation_fixup alt target with
    | None => None
    | Some true =>
        let new_offset := s32 (u64 (target - align_down insnptr SZ_4K)) in
        Some (aarch64_insn_adrp_set_offset insn new_offset)
    | Some false => Some insn
    end
  else if aarch64_insn_is_adr insn then
    let offset := s32 (aarch64_insn_adr_get_offset insn) in
    let target := u64 (altinsnptr + offset) in
    match address_needs_relocation_fixup alt target with
    | None => None
    | Some true => None
    | Some false => Some insn
    end
  else if aarch64_insn_uses_literal insn then None
  else Some insn.

(** ** The patch loop *)

(** [pr_info_once]: the message is printed the first time only. *)
Definition pr_info_once (st : state) : state :=
  if printed_once st then st
  else mk_state (mem st) true (patched st) (trace st ++ [EvPrInfo]).

(** [updptr[i] = cpu_to_le32(insn)], with [p] the address of [updptr[i]]. *)
Definition write_insn (p insn : Z) (st : state) : state :=
  mk_state (store_le32 (mem st) p insn) (printed_once st) (patched st)
           (trace st ++ [EvStore p insn]).

Definition flush_icache_range (start stop : Z) (st : state) : state :=
  mk_state (mem st) (printed_once st) (patched st)
           (trace st ++ [EvFlushIcache start stop]).

(** [for (i = 0; i < nr_inst; i++) { ... }], entered at index [i] with
    [todo = nr_inst - i] iterations left.  The three pointers are
    [__le32 *]: [ptr + i] is four bytes times [i] further. *)
Fixpoint patch_insns (alt : alt_instr) (origptr replptr updptr : Z)
         (todo : nat) (i : Z) (st : state) : outcome :=
  match todo with
  | O => Done st
  | S todo' =>
      match get_alt_insn alt (u64 (origptr + 4 * i))
                         (u64 (replptr + 4 * i)) (mem st) with
      | None => Bug st
      | Some insn =>
          patch_insns alt origptr replptr updptr todo' (i + 1)
                      (write_insn (u64 (updptr + 4 * i)) insn st)
      end
  end.

(** One turn of [for (alt = region->begin; alt < region->end; alt++)]. *)
Definition apply_alt_instr (use_linear_alias : bool) (alt : alt_instr)
           (st : state) : outcome :=
  if negb (cpus_have_cap (cpufeature alt)) then Done st        (* continue *)
  else if negb (alt_len alt =? orig_len alt) then Bug st       (* BUG_ON *)
  else
    let st := pr_info_once st in
    let origptr := ALT_ORIG_PTR alt in
    let replptr := ALT_REPL_PTR alt in
    let updptr := if use_linear_alias then lm_alias origptr else origptr in
    let nr_inst := alt_len alt / 4 in
    do st <- patch_insns alt origptr replptr updptr (Z.to_nat nr_inst) 0 st;
    Done (flush_icache_range origptr (u64 (origptr + 4 * nr_inst)) st).

(** The region [begin .. end) is the list of its descriptors, in table
    order. *)
Fixpoint __apply_alternatives (alt_region : list alt_instr)
         (use_linear_alias : bool) (st : state) : outcome :=
  match alt_region with
  | [] => Done st
  | alt :: rest =>
      do st <- apply_alt_instr use_linear_alias alt st;
      __apply_alternatives rest use_linear_alias st
  end.

(** ** The entry points *)

Definition WRITE_ONCE_patched (v : Z) (st : state) : state :=
  mk_state (mem st) (printed_once st) v (trace st ++ [EvWritePatched v]).

Definition isb (st : state) : state :=
  mk_state (mem st) (printed_once st) (patched st) (trace st ++ [EvIsb]).

(** The function run on every online CPU by [stop_machine]; the argument
    is the value of [smp_processor_id()].  A secondary CPU that reads
    [patched == 0] stays in its loop: nothing it does changes [patched]. *)
Definition __apply_alternatives_multi_stop (smp_processor_id : Z)
           (st : state) : outcome :=
  if negb (smp_processor_id =? 0) then
    if negb (patched st =? 0) then Done (isb st) else Polling st
  else
    if negb (patched st =? 0) then Bug st                       (* BUG_ON *)
    else
      do st <- __apply_alternatives __alt_instructions true st;
      Done (WRITE_ONCE_patched 1 st).

Definition apply_alternatives (region : list alt_instr) (st : state)
  : outcome :=
  __apply_alternatives region false st.

(** ** Vocabulary of the properties *)

(** The address span that [address_needs_relocation_fixup] takes for
    "the given alt-seq itself": from [ALT_REPL_PTR alt] up to
    [ALT_REPL_PTR alt + alt_len], both ends included. *)
Definition within_alt_seq (alt : alt_instr) (addr : Z) : Prop :=
  ALT_REPL_PTR alt <= addr <= u64 (ALT_REPL_PTR alt + alt_len alt).

(** The absolute targets [get_alt_insn] computes for the instruction
    [insn] read at [altinsnptr]. *)
Definition branch_target (altinsnptr insn : Z) : Z :=
  u64 (altinsnptr + s32 (aarch64_get_branch_offset insn)).

Definition adrp_target (altinsnptr insn : Z) : Z :=
  u64 (align_down altinsnptr SZ_4K + s32 (aarch64_insn_adrp_get_offset insn)).

Definition adr_target (altinsnptr insn : Z) : Z :=
  u64 (altinsnptr + s32 (aarch64_insn_adr_get_offset insn)).

(** The destination of a site's instructions. *)
Definition ALT_UPD_PTR (use_linear_alias : bool) (alt : alt_instr) : Z :=
  if use_linear_alias then lm_alias (ALT_ORIG_PTR alt) else ALT_ORIG_PTR alt.

(** [WRITE_ONCE(patched, ...)] in a trace. *)
Definition is_publish (e : event) : bool :=
  match e with
  | EvWritePatched _ => true
  | _ => false
  end.

(** How many times the trace records a store to [patched]. *)
Definition publish_count (tr : list event) : nat :=
  length (filter is_publish tr).

Definition state_of (o : outcome) : state :=
  match o with
  | Done st | Bug st | Polling st => st
  end.

(** [st'] is reached from [st] without touching [patched]. *)
Definition quiet (st st' : state) : Prop :=
  patched st' = patched st
  /\ exists evs, trace st' = trace st ++ evs /\ publish_count evs = 0%nat.

(** ** Vocabulary of the further properties *)

Definition is_flush (e : event) : bool :=
  match e with
  | EvFlushIcache _ _ => true
  | _ => false
  end.

Definition is_pr_info (e : event) : bool :=
  match e with
  | EvPrInfo => true
  | _ => false
  end.

Definition is_store (e : event) : bool :=
  match e with
  | EvStore _ _ => true
  | _ => false
  end.

Definition is_isb (e : event) : bool :=
  match e with
  | EvIsb => true
  | _ => false
  end.

(** [cpus_have_cap(alt->cpufeature)]. *)
Definition has_cap (alt : alt_instr) : bool := cpus_have_cap (cpufeature alt).

(** The flush that ends the turn of an applied site. *)
Definition flush_of (alt : alt_instr) : event :=
  EvFlushIcache (ALT_ORIG_PTR alt)
                (u64 (ALT_ORIG_PTR alt + 4 * (alt_len alt / 4))).

(** [kernel_text_address(addr) || core_kernel_data(addr)]. *)
Definition known_region (addr : Z) : Prop :=
  kernel_text_address addr = true \/ core_kernel_data addr = true.

(** No byte of [u .. u + len) is a byte of [r .. r + len). *)
Definition block_disjoint (u r len : Z) : Prop :=
  forall j k, 0 <= j < len -> 0 <= k < len -> u64 (u + j) <> u64 (r + k).

(** An instruction none of the four tests of [get_alt_insn] selects. *)
Definition plain_insn (insn : Z) : Prop :=
  aarch64_insn_is_branch_imm insn = false
  /\ aarch64_insn_is_adrp insn = false
  /\ aarch64_insn_is_adr insn = false
  /\ aarch64_insn_uses_literal insn = false.

(** ** The CPUs side by side *)

(** The effect of one event on the machine state: what the statement that
    issues it does. *)
Definition perform (e : event) (st : state) : state :=
  match e with
  | EvPrInfo => mk_state (mem st) true (patched st) (trace st ++ [EvPrInfo])
  | EvStore p insn => write_insn p insn st
  | EvFlushIcache start stop => flush_icache_range start stop st
  | EvWritePatched v => WRITE_ONCE_patched v st
  | EvIsb => isb st
  end.

Fixpoint replay (evs : list event) (st : state) : state :=
  match evs with
  | [] => st
  | e :: rest => replay rest (perform e st)
  end.

(** The events a run from [st] to [st'] has added to the trace. *)
Definition events_since (st st' : state) : list event :=
  skipn (length (trace st)) (trace st').

(** All CPUs inside [__apply_alternatives_multi_stop], as [stop_machine]
    puts them.  [shared] is the one machine state; [cpu0_todo] is what CPU 0
    has still to do, in program order; [seen] lists the secondary CPUs whose
    [READ_ONCE(patched)] has returned non-zero, [left] those that have
    executed their [isb] as well. *)
Record machine : Type := mk_machine {
  shared    : state;
  cpu0_todo : list event;
  seen      : list Z;
  left      : list Z
}.

(** One step of one CPU. *)
Inductive action : Type :=
| Cpu0Step                 (* CPU 0 performs its next store, flush, ... *)
| Poll (cpu : Z)           (* one turn of while (!READ_ONCE(patched)) *)
| Barrier (cpu : Z).       (* isb() *)

Definition listed (cpu : Z) (l : list Z) : bool := existsb (Z.eqb cpu) l.

(** A step that is not enabled leaves the machine as it is. *)
Definition exec (a : action) (m : machine) : machine :=
  match a with
  | Cpu0Step =>
      match cpu0_todo m with
      | [] => m
      | e :: rest => mk_machine (perform e (shared m)) rest (seen m) (left m)
      end
  | Poll cpu =>
      if (cpu =? 0) || listed cpu (seen m) then m
      else
        match __apply_alternatives_multi_stop cpu (shared m) with
        | Done _ => mk_machine (shared m) (cpu0_todo m) (cpu :: seen m) (left m)
        | _ => m                                          (* cpu_relax() *)
        end
  | Barrier cpu =>
      if listed cpu (seen m) && negb (listed cpu (left m))
      then mk_machine (isb (shared m)) (cpu0_todo m) (seen m) (cpu :: left m)
      else m
  end.

(** The machine after the steps of [schedule], taken in order. *)
Definition run (schedule : list action) (m : machine) : machine :=
  fold_left (fun m a => exec a m) schedule m.

(** Every CPU at the entry of the function, in state [st0]: the work of
    CPU 0 is what [__apply_alternatives_multi_stop 0] does from [st0]. *)
Definition boot_machine (st0 : state) : machine :=
  mk_machine st0
             (events_since st0 (state_of (__apply_alternatives_multi_stop 0 st0)))
             [] [].


End Alternative.

(** ** A concrete codec and a concrete image, to run the model *)

(** The A64 encodings of the immediate branches [B]/[BL] (imm26), of
    [ADR]/[ADRP] (immlo:immhi) and of the literal loads, on which the
    functions above can be evaluated.  The theorems below hold for every
    codec; this one only serves to evaluate them on concrete words. *)
Module A64.

Definition sign_extend (bits x : Z) : Z :=
  (x + 2 ^ (bits - 1)) mod 2 ^ bits - 2 ^ (bits - 1).

Definition is_b (insn : Z) : bool := Z.land insn 0xFC000000 =? 0x14000000.
Definition is_bl (insn : Z) : bool := Z.land insn 0xFC000000 =? 0x94000000.
Definition is_adr (insn : Z) : bool := Z.land insn 0x9F000000 =? 0x10000000.
Definition is_adrp (insn : Z) : bool := Z.land insn 0x9F000000 =? 0x90000000.
Definition is_ldr_lit (insn : Z) : bool :=
  Z.land insn 0xBF000000 =? 0x18000000.
Definition is_ldrsw_lit (insn : Z) : bool :=
  Z.land insn 0xFF000000 =? 0x98000000.

Definition get_branch_offset (insn : Z) : Z :=
  4 * sign_extend 26 (Z.land insn 0x3FFFFFF).

Definition set_branch_offset (insn offset : Z) : Z :=
  Z.lor (Z.land insn 0xFC000000) (Z.land (Z.shiftr offset 2) 0x3FFFFFF).

Definition adr_imm (insn : Z) : Z :=
  Z.lor (Z.shiftl (Z.land (Z.shiftr insn 5) 0x7FFFF) 2)
        (Z.land (Z.shiftr insn 29) 3).

Definition adr_set_imm (insn imm : Z) : Z :=
  Z.lor (Z.land insn 0x9F00001F)
        (Z.lor (Z.shiftl (Z.land imm 3) 29)
               (Z.shiftl (Z.land (Z.shiftr imm 2) 0x7FFFF) 5)).

Definition adr_get_offset (insn : Z) : Z := sign_extend 21 (adr_imm insn).

Definition adrp_get_offset (insn : Z) : Z :=
  4096 * sign_extend 21 (adr_imm insn).

Definition adrp_set_offset (insn offset : Z) : Z :=
  adr_set_imm insn (Z.shiftr offset 12).

Definition codec : InsnCodec := {|
  aarch64_insn_is_branch_imm   := fun insn => is_b insn || is_bl insn;
  aarch64_get_branch_offset    := get_branch_offset;
  aarch64_set_branch_offset    := set_branch_offset;
  aarch64_insn_is_adrp         := is_adrp;
  aarch64_insn_adrp_get_offset := adrp_get_offset;
  aarch64_insn_adrp_set_offset := adrp_set_offset;
  aarch64_insn_is_adr          := is_adr;
  aarch64_insn_adr_get_offset  := adr_get_offset;
  aarch64_insn_uses_literal    := fun insn => is_ldr_lit insn || is_ldrsw_lit insn
|}.

End A64.

(** Concrete images.  Kernel text is the union of the ranges [text] (the
    core kernel and, when there are any, modules), core kernel data is the
    range [data], the detected capabilities are those of the list [caps];
    descriptors are laid out as [{ s32 orig_offset; s32 alt_offset; ... }]. *)
Module Sample.

Definition in_range (r : Z * Z) (a : Z) : bool :=
  (fst r <=? a) && (a <? snd r).

Definition image (text : list (Z * Z)) (data : Z * Z) (caps : list Z)
           (table : list alt_instr) : KernelImage := {|
  kernel_text_address  := fun a => existsb (fun r => in_range r a) text;
  core_kernel_data     := in_range data;
  cpus_have_cap        := fun c => existsb (Z.eqb c) caps;
  lm_alias             := fun p => u64 (p + 0x7ffff8000000);
  offsetof_orig_offset := 0;
  offsetof_alt_offset  := 4;
  __alt_instructions   := table
|}.

(** The descriptor stored at [self] of a site whose original sequence is at
    [orig] and whose replacement is at [repl]. *)
Definition site (self orig repl feature olen alen : Z) : alt_instr :=
  mk_alt_instr self (orig - self) (repl - (self + 4)) feature olen alen.

(** A memory holding the given instruction words, zero elsewhere. *)
Fixpoint mem_of (words : list (Z * Z)) : memory :=
  match words with
  | [] => fun _ => x00
  | (p, w) :: rest => store_le32 (mem_of rest) p w
  end.

Definition boot (words : list (Z * Z)) : state :=
  mk_state (mem_of words) false 0 [].

(** *** A kernel image at boot

    Text at [0xffff000008080000, 0xffff000008a00000), data at
    [0xffff000008c00000, 0xffff000008e00000), replacement sequences
    in between, capability 7 detected. *)

Definition text : Z * Z := (0xffff000008080000, 0xffff000008a00000).
Definition data : Z * Z := (0xffff000008c00000, 0xffff000008e00000).

(** Two instructions: [b F], with [F = 0xffff000008200000] in text, and
    [adrp x0, D], with [D] in the data page [0xffff000008c10000]. *)
Definition site_far : alt_instr :=
  site 0xffff000008b80000 0xffff000008091000 0xffff000008b00000 7 8 8.

(** Capability 9 is not detected; the two lengths differ. *)
Definition site_off : alt_instr :=
  site 0xffff000008b8000c 0xffff000008092000 0xffff000008b00008 9 4 8.

(** Two instructions: [b .+4], to the second instruction, and [b .+4],
    to the end address of the sequence. *)
Definition site_near : alt_instr :=
  site 0xffff000008b80018 0xffff000008093000 0xffff000008b00010 7 8 8.

(** One instruction ([nop]) and two more bytes: [alt_len] is 6. *)
Definition site_odd : alt_instr :=
  site 0xffff000008b80024 0xffff000008094000 0xffff000008b00018 7 6 6.

(** Capability 7, but the two lengths differ. *)
Definition site_stale : alt_instr :=
  site 0xffff000008b80030 0xffff000008095000 0xffff000008b00020 7 8 4.



Definition words : list (Z * Z) :=
  [ (0xffff000008b00000, 0x17DC0000); (0xffff000008b00004, 0x90000880);
    (0xffff000008b00010, 0x14000001); (0xffff000008b00014, 0x14000001);
    (0xffff000008b00018, 0xD503201F); (0xffff000008b0001c, 0x0000BEEF);
    (0xffff000008b00028, 0x10008000); (0xffff000008b0002c, 0x58000040);
    (0xffff000008b00030, 0xD503201F); (0xffff000008b00034, 0x10000020);
    (0xffff000008094004, 0xAABBCCDD) ].

Definition table : list alt_instr :=
  [ site_far; site_off; site_near; site_odd ].

Definition boot_image : KernelImage := image [text] data [7] table.

Definition boot_state : state := boot words.

(** *** An image whose replacement sequences sit in kernel text *)

Definition site_in_text : alt_instr :=
  site 0xffff000008900000 0xffff000008091000 0xffff000008880000 7 8 8.

Definition text_image : KernelImage := image [text] data [7] [site_in_text].

Definition text_state : state :=
  boot [ (0xffff000008880000, 0x14000001); (0xffff000008880004, 0xD503201F) ].

(** *** An image with a second text range, more than 2 GiB above the
    original sequence *)

Definition high_text : Z * Z := (0xffff00008f000000, 0xffff00008ff80000).

Definition site_high : alt_instr :=
  site 0xffff00004c000000 0xffff000008091000 0xffff000090000000 7 4 4.

Definition high_image : KernelImage :=
  image [text; high_text] data [7] [site_high].

(** [b .-0x100000]: the target [0xffff00008ff00000] is in [high_text]. *)
Definition high_state : state := boot [ (0xffff000090000000, 0x17FC0000) ].

(** *** A site whose second instruction is fatal *)

(** [nop], then [ldr x0, .+8]. *)
Definition site_late : alt_instr :=
  site 0xffff000008b80054 0xffff000008098000 0xffff000008b00040 7 8 8.

Definition late_state : state :=
  boot [ (0xffff000008b00040, 0xD503201F); (0xffff000008b00044, 0x58000040) ].

(** [adrp x0, .-0x1000000]: the target page [0xffff00008f000000] is in
    [high_text]. *)
Definition high_adrp_state : state :=
  boot [ (0xffff000090000000, 0x90FF8000) ].

(** *** A schedule for three CPUs

    CPU 1 polls before CPU 0 has started and again after two of its
    events, and tries its [isb]; CPU 0 then finishes; CPUs 1 and 2 poll,
    and CPU 2 executes its [isb]. *)
Definition schedule : list action :=
  [ Poll 1; Cpu0Step; Cpu0Step; Poll 1; Barrier 1 ]
  ++ repeat Cpu0Step 8 ++ [ Poll 1; Poll 2; Barrier 2 ].

End Sample.

(** * Properties *)

(** Closed facts: equalities and comparisons between computed values. *)
Ltac by_evaluation :=
  vm_compute;
  repeat match goal with |- _ /\ _ => split end;
  first [ reflexivity | let H := fresh "H" in intros H; discriminate H ].

(** ** Integer conversions *)

Lemma u64_range (x : Z) : 0 <= u64 x < 2 ^ 64.
Proof. unfold u64. apply Z.mod_pos_bound. lia. Qed.

Lemma u64_small (x : Z) : 0 <= x < 2 ^ 64 -> u64 x = x.
Proof. intros H. unfold u64. apply Z.mod_small. exact H. Qed.

Lemma u64_idem (x : Z) : u64 (u64 x) = u64 x.
Proof. apply u64_small, u64_range. Qed.

Lemma u64_add_l (x y : Z) : u64 (u64 x + y) = u64 (x + y).
Proof. unfold u64. apply Zplus_mod_idemp_l. Qed.

Lemma u64_add_r (x y : Z) : u64 (x + u64 y) = u64 (x + y).
Proof. unfold u64. apply Zplus_mod_idemp_r. Qed.

Lemma u64_sub_l (x y : Z) : u64 (u64 x - y) = u64 (x - y).
Proof. unfold u64. apply Zminus_mod_idemp_l. Qed.

Lemma s32_range (x : Z) : - 2 ^ 31 <= s32 x < 2 ^ 31.
Proof.
  unfold s32.
  assert (H : 0 <= (x + 2 ^ 31) mod 2 ^ 32 < 2 ^ 32)
    by (apply Z.mod_pos_bound; lia).
  lia.
Qed.

Lemma s32_small (x : Z) : - 2 ^ 31 <= x < 2 ^ 31 -> s32 x = x.
Proof. intros H. unfold s32. rewrite Z.mod_small; lia. Qed.

(** Narrowing an [unsigned long] to [s32] only looks at the low 32 bits. *)
Lemma s32_u64 (x : Z) : s32 (u64 x) = s32 x.
Proof.
  unfold s32, u64. f_equal.
  rewrite <- (Z.mod_mod_divide (x mod 2 ^ 64 + 2 ^ 31) (2 ^ 64) (2 ^ 32))
    by (exists (2 ^ 32); reflexivity).
  rewrite Zplus_mod_idemp_l.
  apply Z.mod_mod_divide. exists (2 ^ 32); reflexivity.
Qed.

Lemma s32_congr (x : Z) : s32 x mod 2 ^ 32 = x mod 2 ^ 32.
Proof.
  unfold s32.
  rewrite Zminus_mod_idemp_l.
  replace (x + 2 ^ 31 - 2 ^ 31) with x by lia. reflexivity.
Qed.

Lemma s64_u64 (x : Z) : u64 (s64 x) = u64 x.
Proof.
  unfold s64, u64.
  rewrite Zminus_mod_idemp_l.
  replace (x + 2 ^ 63 - 2 ^ 63) with x by lia. reflexivity.
Qed.

Lemma mod32_u64 (x : Z) : u64 x mod 2 ^ 32 = x mod 2 ^ 32.
Proof.
  unfold u64. apply Z.mod_mod_divide. exists (2 ^ 32); reflexivity.
Qed.

(** [align_down x SZ_4K] clears the low twelve bits of [x]. *)
Lemma align_down_4K (x : Z) : align_down x SZ_4K = 4096 * (u64 x / 4096).
Proof.
  unfold align_down, SZ_4K.
  assert (Hx := u64_range x).
  replace (u64 (Z.lnot (u64 (u64 4096 - 1)))) with (2 ^ 64 - 4096)
    by (vm_compute; reflexivity).
  replace (2 ^ 64 - 4096) with (Z.ldiff (Z.ones 64) (Z.ones 12))
    by (vm_compute; reflexivity).
  rewrite Z.ldiff_land, Z.land_assoc, Z.land_ones by lia.
  rewrite (Z.mod_small (u64 x)) by exact Hx.
  rewrite <- Z.ldiff_land, Z.ldiff_ones_r by lia.
  rewrite Z.shiftr_div_pow2, Z.shiftl_mul_pow2 by lia.
  change (2 ^ 12) with 4096. lia.
Qed.

(** ** Memory *)

Lemma Z_of_byte_range (b : byte) : 0 <= Z_of_byte b < 2 ^ 8.
Proof.
  unfold Z_of_byte. pose proof (Byte.to_N_bounded b) as H.
  change (2 ^ 8) with 256. lia.
Qed.

Lemma Z_of_byte_of_Z (v : Z) : Z_of_byte (byte_of_Z v) = v mod 2 ^ 8.
Proof.
  unfold Z_of_byte, byte_of_Z.
  assert (Hr : 0 <= v mod 2 ^ 8 < 2 ^ 8) by (apply Z.mod_pos_bound; lia).
  destruct (Byte.of_N (Z.to_N (v mod 2 ^ 8))) as [b|] eqn:E.
  - apply Byte.to_of_N in E. rewrite E. apply Z2N.id. lia.
  - apply Byte.of_N_None_iff in E. change (2 ^ 8) with 256 in *. lia.
Qed.

Lemma byte_of_Z_of_byte (b : byte) : byte_of_Z (Z_of_byte b) = b.
Proof.
  unfold byte_of_Z.
  rewrite Z.mod_small by apply Z_of_byte_range.
  unfold Z_of_byte. rewrite N2Z.id, Byte.of_to_N. reflexivity.
Qed.

Lemma load_le32_range (m : memory) (p : Z) : 0 <= load_le32 m p < 2 ^ 32.
Proof.
  unfold load_le32.
  pose proof (Z_of_byte_range (m (u64 p))).
  pose proof (Z_of_byte_range (m (u64 (p + 1)))).
  pose proof (Z_of_byte_range (m (u64 (p + 2)))).
  pose proof (Z_of_byte_range (m (u64 (p + 3)))).
  change (2 ^ 8) with 256 in *. change (2 ^ 16) with 65536.
  change (2 ^ 24) with 16777216. change (2 ^ 32) with 4294967296. lia.
Qed.

(** Distinct small displacements from one pointer give distinct addresses. *)
Lemma u64_add_inj (p j k : Z) :
  0 <= j < 2 ^ 64 -> 0 <= k < 2 ^ 64 -> u64 (p + j) = u64 (p + k) -> j = k.
Proof.
  unfold u64. intros Hj Hk H.
  change (2 ^ 64) with 18446744073709551616 in *.
  Z.div_mod_to_equations. lia.
Qed.

Lemma store8_same (m : memory) (p v : Z) : store8 m p v (u64 p) = byte_of_Z v.
Proof. unfold store8. rewrite Z.eqb_refl. reflexivity. Qed.

Lemma store8_other (m : memory) (p v a : Z) :
  a <> u64 p -> store8 m p v a = m a.
Proof.
  intros H. unfold store8. destruct (a =? u64 p) eqn:E; [ | reflexivity ].
  apply Z.eqb_eq in E. contradiction.
Qed.

Lemma store_le32_other (m : memory) (p v a : Z) :
  (forall k, 0 <= k < 4 -> a <> u64 (p + k)) -> store_le32 m p v a = m a.
Proof.
  intros H. unfold store_le32.
  rewrite !store8_other; try (apply H; lia).
  - reflexivity.
  - replace p with (p + 0) by lia. apply H. lia.
Qed.

Lemma store_le32_byte (m : memory) (p v k : Z) :
  0 <= k < 4 -> store_le32 m p v (u64 (p + k)) = byte_of_Z (v / 2 ^ (8 * k)).
Proof.
  intros Hk.
  assert (Hne : forall j, 0 <= j < 4 -> j <> k -> u64 (p + k) <> u64 (p + j)).
  { intros j Hj Hjk E. apply u64_add_inj in E; lia. }
  assert (Hcase : k = 0 \/ k = 1 \/ k = 2 \/ k = 3) by lia.
  unfold store_le32.
  destruct Hcase as [-> | [-> | [-> | ->]]].
  - rewrite !store8_other by (apply Hne; lia).
    replace (p + 0) with p by lia. rewrite store8_same.
    change (2 ^ (8 * 0)) with 1. rewrite Z.div_1_r. reflexivity.
  - rewrite !store8_other by (apply Hne; lia).
    rewrite store8_same. reflexivity.
  - rewrite !store8_other by (apply Hne; lia).
    rewrite store8_same. reflexivity.
  - rewrite store8_same. reflexivity.
Qed.

Lemma byte_of_Z_congr (v w : Z) :
  v mod 2 ^ 8 = w mod 2 ^ 8 -> byte_of_Z v = byte_of_Z w.
Proof. intros H. unfold byte_of_Z. rewrite H. reflexivity. Qed.

(** A word copied from [q] in [m'] to [p] leaves at [p] the bytes found at
    [q]. *)
Lemma copy_le32_bytes (m m' : memory) (p q k : Z) :
  0 <= k < 4 ->
  store_le32 m p (load_le32 m' q) (u64 (p + k)) = m' (u64 (q + k)).
Proof.
  intros Hk. rewrite store_le32_byte by exact Hk.
  rewrite <- (byte_of_Z_of_byte (m' (u64 (q + k)))).
  apply byte_of_Z_congr.
  rewrite (Z.mod_small (Z_of_byte _)) by apply Z_of_byte_range.
  unfold load_le32.
  pose proof (Z_of_byte_range (m' (u64 q))).
  pose proof (Z_of_byte_range (m' (u64 (q + 1)))).
  pose proof (Z_of_byte_range (m' (u64 (q + 2)))).
  pose proof (Z_of_byte_range (m' (u64 (q + 3)))).
  assert (Hcase : k = 0 \/ k = 1 \/ k = 2 \/ k = 3) by lia.
  destruct Hcase as [-> | [-> | [-> | ->]]];
    [ replace (q + 0) with q by lia | | | ];
    cbn [Z.mul Pos.mul];
    change (2 ^ 0) with 1; change (2 ^ 8) with 256 in *;
    change (2 ^ 16) with 65536; change (2 ^ 24) with 16777216;
    Z.div_mod_to_equations; lia.
Qed.

(** ** The instruction relocator *)

Section Relocation.

Context {codec : InsnCodec} {image : KernelImage}.

Lemma fixup_known_region (alt : alt_instr) (addr : Z) :
  kernel_text_address addr = true \/ core_kernel_data addr = true ->
  address_needs_relocation_fixup alt addr = Some true.
Proof.
  intros H. unfold address_needs_relocation_fixup.
  apply orb_true_iff in H. rewrite H. reflexivity.
Qed.

Lemma fixup_elsewhere (alt : alt_instr) (addr : Z) :
  kernel_text_address addr = false -> core_kernel_data addr = false ->
  address_needs_relocation_fixup alt addr =
    if (addr >=? ALT_REPL_PTR alt)
       && (addr <=? u64 (ALT_REPL_PTR alt + alt_len alt))
    then Some false else None.
Proof.
  intros Ht Hd. unfold address_needs_relocation_fixup.
  rewrite Ht, Hd. reflexivity.
Qed.

Lemma within_alt_seq_test (alt : alt_instr) (addr : Z) :
  (addr >=? ALT_REPL_PTR alt)
    && (addr <=? u64 (ALT_REPL_PTR alt + alt_len alt)) = true
  <-> within_alt_seq alt addr.
Proof.
  unfold within_alt_seq.
  rewrite andb_true_iff, Z.geb_le, Z.leb_le. reflexivity.
Qed.

Lemma fixup_internal (alt : alt_instr) (addr : Z) :
  address_needs_relocation_fixup alt addr = Some false <->
  kernel_text_address addr = false /\ core_kernel_data addr = false /\
  within_alt_seq alt addr.
Proof.
  rewrite <- within_alt_seq_test.
  unfold address_needs_relocation_fixup.
  destruct (kernel_text_address addr), (core_kernel_data addr); simpl;
    try (split; [ discriminate | intros (? & ? & ?); discriminate ]).
  destruct ((addr >=? ALT_REPL_PTR alt)
            && (addr <=? u64 (ALT_REPL_PTR alt + alt_len alt)));
    split; intros H; try discriminate; auto.
  destruct H as (_ & _ & H). discriminate.
Qed.

Lemma fixup_external (alt : alt_instr) (addr : Z) :
  address_needs_relocation_fixup alt addr = Some true <->
  kernel_text_address addr = true \/ core_kernel_data addr = true.
Proof.
  split; [ | apply fixup_known_region ].
  unfold address_needs_relocation_fixup.
  destruct (kernel_text_address addr); [ auto | ].
  destruct (core_kernel_data addr); [ auto | ]. simpl.
  destruct ((addr >=? ALT_REPL_PTR alt)
            && (addr <=? u64 (ALT_REPL_PTR alt + alt_len alt)));
    discriminate.
Qed.

Lemma fixup_bug (alt : alt_instr) (addr : Z) :
  address_needs_relocation_fixup alt addr = None <->
  kernel_text_address addr = false /\ core_kernel_data addr = false /\
  ~ within_alt_seq alt addr.
Proof.
  rewrite <- within_alt_seq_test.
  unfold address_needs_relocation_fixup.
  destruct (kernel_text_address addr), (core_kernel_data addr); simpl;
    try (split; [ discriminate | intros (? & ? & ?); discriminate ]).
  destruct ((addr >=? ALT_REPL_PTR alt)
            && (addr <=? u64 (ALT_REPL_PTR alt + alt_len alt)));
    split; intros H; try discriminate.
  - destruct H as (_ & _ & H). exfalso. apply H. reflexivity.
  - repeat split. discriminate.
  - reflexivity.
Qed.

(** *** [get_alt_insn], kind by kind *)

Lemma get_alt_insn_branch (alt : alt_instr) (insnptr altinsnptr : Z)
      (m : memory) (insn : Z) :
  load_le32 m altinsnptr = insn ->
  aarch64_insn_is_branch_imm insn = true ->
  get_alt_insn alt insnptr altinsnptr m =
    match address_needs_relocation_fixup alt (branch_target altinsnptr insn) with
    | None => None
    | Some true =>
        Some (aarch64_set_branch_offset
                insn (s32 (u64 (branch_target altinsnptr insn - insnptr))))
    | Some false => Some insn
    end.
Proof.
  intros <- Hb. unfold get_alt_insn, branch_target. rewrite Hb. reflexivity.
Qed.

Lemma get_alt_insn_adrp (alt : alt_instr) (insnptr altinsnptr : Z)
      (m : memory) (insn : Z) :
  load_le32 m altinsnptr = insn ->
  aarch64_insn_is_branch_imm insn = false ->
  aarch64_insn_is_adrp insn = true ->
  get_alt_insn alt insnptr altinsnptr m =
    match address_needs_relocation_fixup alt (adrp_target altinsnptr insn) with
    | None => None
    | Some true =>
        Some (aarch64_insn_adrp_set_offset
                insn (s32 (u64 (adrp_target altinsnptr insn
                                - align_down insnptr SZ_4K))))
    | Some false => Some insn
    end.
Proof.
  intros <- Hb Hp. unfold get_alt_insn, adrp_target. rewrite Hb, Hp.
  reflexivity.
Qed.

Lemma get_alt_insn_adr (alt : alt_instr) (insnptr altinsnptr : Z)
      (m : memory) (insn : Z) :
  load_le32 m altinsnptr = insn ->
  aarch64_insn_is_branch_imm insn = false ->
  aarch64_insn_is_adrp insn = false ->
  aarch64_insn_is_adr insn = true ->
  get_alt_insn alt insnptr altinsnptr m =
    match address_needs_relocation_fixup alt (adr_target altinsnptr insn) with
    | Some false => Some insn
    | _ => None
    end.
Proof.
  intros <- Hb Hp Ha. unfold get_alt_insn, adr_target. rewrite Hb, Hp, Ha.
  destruct (address_needs_relocation_fixup _ _) as [[|]|]; reflexivity.
Qed.


(** The relocated offset, added to the final address, gives the target
    back when the displacement fits an [s32]. *)
Lemma relocated_offset_reaches (target insnptr : Z) :
  - 2 ^ 31 <= s64 (target - insnptr) < 2 ^ 31 ->
  u64 (s32 (u64 (target - insnptr)) + insnptr) = u64 target.
Proof.
  intros Hfit.
  assert (E : s32 (u64 (target - insnptr)) = s64 (target - insnptr)).
  { rewrite s32_u64. rewrite <- (s32_small _ Hfit).
    rewrite <- (s32_u64 (s64 _)), s64_u64, s32_u64. reflexivity. }
  rewrite E, <- u64_add_l, s64_u64, u64_add_l. f_equal. lia.
Qed.

(** In every case the two sides agree on their low 32 bits. *)
Lemma relocated_offset_congr (target insnptr : Z) :
  (s32 (u64 (target - insnptr)) + insnptr) mod 2 ^ 32 = target mod 2 ^ 32.
Proof.
  rewrite <- Zplus_mod_idemp_l, s32_congr, mod32_u64, Zplus_mod_idemp_l.
  f_equal. lia.
Qed.

(** C1 (amended).  A relative branch of the replacement sequence whose
    target needs relocation is returned re-encoded with the offset
    [(s32)(target - insnptr)], [insnptr] being the final address of the
    instruction.  The new offset added to the final address and the old
    offset added to the replacement address agree on their low 32 bits;
    they are the same 64-bit address when the displacement
    [target - insnptr] fits a signed 32-bit offset. *)
Theorem branch_relocated (alt : alt_instr) (insnptr altinsnptr : Z)
        (m : memory) (insn : Z) :
  load_le32 m altinsnptr = insn ->
  aarch64_insn_is_branch_imm insn = true ->
  address_needs_relocation_fixup alt (branch_target altinsnptr insn) = Some true ->
  get_alt_insn alt insnptr altinsnptr m =
    Some (aarch64_set_branch_offset
            insn (s32 (u64 (branch_target altinsnptr insn - insnptr))))
  /\ (s32 (u64 (branch_target altinsnptr insn - insnptr)) + insnptr) mod 2 ^ 32
     = (s32 (aarch64_get_branch_offset insn) + altinsnptr) mod 2 ^ 32
  /\ (- 2 ^ 31 <= s64 (branch_target altinsnptr insn - insnptr) < 2 ^ 31 ->
      u64 (s32 (u64 (branch_target altinsnptr insn - insnptr)) + insnptr)
      = u64 (s32 (aarch64_get_branch_offset insn) + altinsnptr)).
Proof.
  intros Hload Hb Hfix. split; [ | split ].
  - rewrite (get_alt_insn_branch alt insnptr altinsnptr m insn Hload Hb).
    rewrite Hfix. reflexivity.
  - rewrite relocated_offset_congr. unfold branch_target.
    rewrite mod32_u64. f_equal. lia.
  - intros Hfit. rewrite (relocated_offset_reaches _ _ Hfit).
    unfold branch_target. rewrite u64_idem. f_equal. lia.
Qed.

(** Narrowing an [unsigned long] to [s32] keeps its value as a [long]
    when that value fits. *)
Lemma s32_u64_fits (d : Z) :
  - 2 ^ 31 <= s64 d < 2 ^ 31 -> s32 (u64 d) = s64 d.
Proof.
  intros Hfit. rewrite s32_u64, <- (s32_small _ Hfit).
  rewrite <- (s32_u64 (s64 d)), s64_u64, s32_u64. reflexivity.
Qed.

(** C4 (amended).  For an [adrp] of the replacement sequence the target is
    [align_down(altinsnptr, SZ_4K) + orig_offset]; when it needs
    relocation the instruction is returned re-encoded with
    [new_offset = (s32)(target - align_down(insnptr, SZ_4K))], which is
    that difference itself when it fits a signed 32-bit offset; when the
    target needs no relocation the encoding is returned as it is (and
    [BUG()] propagates).  [align_down(x, SZ_4K)] clears the low twelve
    bits of [x]. *)
Theorem adrp_relocated (alt : alt_instr) (insnptr altinsnptr : Z)
        (m : memory) (insn : Z) :
  load_le32 m altinsnptr = insn ->
  aarch64_insn_is_branch_imm insn = false ->
  aarch64_insn_is_adrp insn = true ->
  adrp_target altinsnptr insn
    = u64 (4096 * (u64 altinsnptr / 4096)
           + s32 (aarch64_insn_adrp_get_offset insn))
  /\ (address_needs_relocation_fixup alt (adrp_target altinsnptr insn) = Some true ->
      get_alt_insn alt insnptr altinsnptr m =
        Some (aarch64_insn_adrp_set_offset
                insn (s32 (u64 (adrp_target altinsnptr insn
                                - 4096 * (u64 insnptr / 4096))))))
  /\ (- 2 ^ 31
      <= s64 (adrp_target altinsnptr insn - 4096 * (u64 insnptr / 4096))
      < 2 ^ 31 ->
      s32 (u64 (adrp_target altinsnptr insn - 4096 * (u64 insnptr / 4096)))
      = s64 (adrp_target altinsnptr insn - 4096 * (u64 insnptr / 4096)))
  /\ (address_needs_relocation_fixup alt (adrp_target altinsnptr insn) = Some false ->
      get_alt_insn alt insnptr altinsnptr m = Some insn)
  /\ (address_needs_relocation_fixup alt (adrp_target altinsnptr insn) = None ->
      get_alt_insn alt insnptr altinsnptr m = None).
Proof.
  intros Hload Hb Hp.
  rewrite (get_alt_insn_adrp alt insnptr altinsnptr m insn Hload Hb Hp).
  split; [ unfold adrp_target; rewrite align_down_4K; reflexivity | ].
  split; [ rewrite align_down_4K; intros ->; reflexivity | ].
  split; [ apply s32_u64_fits | ].
  split; intros ->; reflexivity.
Qed.


End Relocation.

(** ** The patch applier *)

Section Applier.

Context {codec : InsnCodec} {image : KernelImage}.

Lemma bind_Done (o : outcome) (k : state -> outcome) (st' : state) :
  bind o k = Done st' -> exists st1, o = Done st1 /\ k st1 = Done st'.
Proof.
  destruct o as [st1 | st1 | st1]; simpl; intros H; try discriminate.
  exists st1. split; [ reflexivity | exact H ].
Qed.

Lemma apply_alternatives_app (pre post : list alt_instr) (b : bool)
      (st : state) :
  __apply_alternatives (pre ++ post) b st =
    bind (__apply_alternatives pre b st) (__apply_alternatives post b).
Proof.
  revert st. induction pre as [| alt pre IH]; intros st; simpl.
  - reflexivity.
  - destruct (apply_alt_instr b alt st) as [st1 | st1 | st1]; simpl;
      [ apply IH | reflexivity | reflexivity ].
Qed.

Lemma apply_alt_instr_skip (b : bool) (alt : alt_instr) (st : state) :
  cpus_have_cap (cpufeature alt) = false -> apply_alt_instr b alt st = Done st.
Proof. intros H. unfold apply_alt_instr. rewrite H. reflexivity. Qed.

Lemma apply_alt_instr_len_bug (b : bool) (alt : alt_instr) (st : state) :
  cpus_have_cap (cpufeature alt) = true ->
  alt_len alt <> orig_len alt ->
  apply_alt_instr b alt st = Bug st.
Proof.
  intros Hc Hl. unfold apply_alt_instr. rewrite Hc. simpl.
  apply Z.eqb_neq in Hl. rewrite Hl. reflexivity.
Qed.

Lemma apply_alt_instr_go (b : bool) (alt : alt_instr) (st : state) :
  cpus_have_cap (cpufeature alt) = true ->
  alt_len alt = orig_len alt ->
  apply_alt_instr b alt st =
    bind (patch_insns alt (ALT_ORIG_PTR alt) (ALT_REPL_PTR alt)
                      (ALT_UPD_PTR b alt) (Z.to_nat (alt_len alt / 4)) 0
                      (pr_info_once st))
         (fun st1 => Done (flush_icache_range
                             (ALT_ORIG_PTR alt)
                             (u64 (ALT_ORIG_PTR alt + 4 * (alt_len alt / 4)))
                             st1)).
Proof.
  intros Hc Hl. unfold apply_alt_instr. rewrite Hc. simpl.
  apply Z.eqb_eq in Hl. rewrite Hl. reflexivity.
Qed.

(** What a completed run of the instruction loop leaves behind. *)
Lemma patch_insns_done (alt : alt_instr) (o r u : Z) (n : nat) :
  forall (i : Z) (st st' : state),
    0 <= i -> 4 * (i + Z.of_nat n) < 2 ^ 64 ->
    patch_insns alt o r u n i st = Done st' ->
    printed_once st' = printed_once st /\ patched st' = patched st
    /\ (exists stores,
           trace st' = trace st ++ stores /\ length stores = n
           /\ forall k, (k < n)%nat ->
                exists insn m,
                  nth_error stores k
                    = Some (EvStore (u64 (u + 4 * (i + Z.of_nat k))) insn)
                  /\ get_alt_insn alt (u64 (o + 4 * (i + Z.of_nat k)))
                                  (u64 (r + 4 * (i + Z.of_nat k))) m
                     = Some insn
                  /\ forall c, 0 <= c < 4 ->
                       mem st' (u64 (u + (4 * (i + Z.of_nat k) + c)))
                       = byte_of_Z (insn / 2 ^ (8 * c)))
    /\ (forall a,
           (forall j, 4 * i <= j < 4 * (i + Z.of_nat n) -> a <> u64 (u + j)) ->
           mem st' a = mem st a).
Proof.
  induction n as [| n IH]; intros i st st' Hi Hbound Hrun.
  - simpl in Hrun. assert (E : st' = st) by congruence. subst st'.
    repeat split; try reflexivity.
    exists []. rewrite app_nil_r. repeat split; try reflexivity.
    intros k Hk. lia.
  - cbn [patch_insns] in Hrun.
    destruct (get_alt_insn alt (u64 (o + 4 * i)) (u64 (r + 4 * i)) (mem st))
      as [insn |] eqn:Einsn; [ | discriminate Hrun ].
    apply IH in Hrun; [ | lia | lia ].
    destruct Hrun as (Hpr & Hpa & (stores & Htr & Hlen & Hst) & Hframe).
    unfold write_insn in Hpr, Hpa, Htr. cbn [printed_once patched trace] in Hpr, Hpa, Htr.
    split; [ exact Hpr | ]. split; [ exact Hpa | ]. split.
    + exists (EvStore (u64 (u + 4 * i)) insn :: stores).
      split; [ | split ].
      * rewrite Htr, <- app_assoc. reflexivity.
      * simpl. rewrite Hlen. reflexivity.
      * intros [| k] Hk.
        -- exists insn, (mem st).
           change (Z.of_nat 0) with 0. replace (i + 0) with i by lia.
           split; [ reflexivity | ]. split; [ exact Einsn | ].
           intros c Hc. rewrite Hframe.
           ++ unfold write_insn. cbn [mem].
              replace (u64 (u + (4 * i + c))) with (u64 (u64 (u + 4 * i) + c))
                by (rewrite u64_add_l; f_equal; lia).
              apply store_le32_byte. exact Hc.
           ++ intros j Hj E.
              apply u64_add_inj in E; lia.
        -- destruct (Hst k ltac:(lia)) as (insn' & m' & Hnth & Hget & Hmem).
           exists insn', m'.
           replace (i + Z.of_nat (S k)) with (i + 1 + Z.of_nat k) by lia.
           split; [ exact Hnth | ]. split; [ exact Hget | exact Hmem ].
    + intros a Ha. rewrite Hframe.
      * unfold write_insn. cbn [mem]. apply store_le32_other. intros k Hk.
        rewrite u64_add_l, <- Z.add_assoc. apply Ha. lia.
      * intros j Hj. apply Ha. lia.
Qed.

Lemma mem_pr_info_once (st : state) : mem (pr_info_once st) = mem st.
Proof. unfold pr_info_once. destruct (printed_once st); reflexivity. Qed.

(** A region none of whose capabilities is detected is walked without any
    effect. *)
Lemma apply_alternatives_none_detected (region : list alt_instr) (b : bool)
      (st : state) :
  (forall alt, In alt region -> cpus_have_cap (cpufeature alt) = false) ->
  __apply_alternatives region b st = Done st.
Proof.
  induction region as [| alt rest IH]; intros Hnone;
    cbn [__apply_alternatives].
  - reflexivity.
  - rewrite (apply_alt_instr_skip b alt st) by (apply Hnone; left; reflexivity).
    cbn [bind]. apply IH. intros a Ha. apply Hnone. right. exact Ha.
Qed.

(** C5.  A site whose capability is not detected is passed over: the turn
    of the loop returns the state it was given (same memory, hence the
    same bytes at the original sequence; same trace, hence no flush), and
    it does so whatever the two lengths are.  Taking such a site out of a
    region changes nothing to what [__apply_alternatives] does. *)
Theorem skipped_site_untouched (b : bool) (alt : alt_instr) :
  cpus_have_cap (cpufeature alt) = false ->
  (forall st, apply_alt_instr b alt st = Done st)
  /\ (forall pre post st,
         __apply_alternatives (pre ++ alt :: post) b st
         = __apply_alternatives (pre ++ post) b st).
Proof.
  intros Hcap. split.
  - intros st. apply apply_alt_instr_skip. exact Hcap.
  - intros pre post st. rewrite !apply_alternatives_app.
    destruct (__apply_alternatives pre b st) as [st1 | st1 | st1];
      try reflexivity.
    cbn [bind __apply_alternatives].
    rewrite (apply_alt_instr_skip b alt st1 Hcap). reflexivity.
Qed.

(** C6.  For a site whose capability is detected, different lengths are
    fatal before anything is written: [BUG_ON] fires in the very state the
    site was reached in, also in the middle of a region; conversely a site
    whose turn completes has equal lengths. *)
Theorem length_mismatch_is_fatal (b : bool) (alt : alt_instr) :
  cpus_have_cap (cpufeature alt) = true ->
  (alt_len alt <> orig_len alt ->
   (forall st, apply_alt_instr b alt st = Bug st)
   /\ (forall pre post st st1,
          __apply_alternatives pre b st = Done st1 ->
          __apply_alternatives (pre ++ alt :: post) b st = Bug st1))
  /\ (forall st st',
         apply_alt_instr b alt st = Done st' -> alt_len alt = orig_len alt).
Proof.
  intros Hcap. split.
  - intros Hlen. split.
    + intros st. apply apply_alt_instr_len_bug; assumption.
    + intros pre post st st1 Hpre.
      rewrite apply_alternatives_app, Hpre.
      cbn [bind __apply_alternatives].
      rewrite (apply_alt_instr_len_bug b alt st1 Hcap Hlen). reflexivity.
  - intros st st' Hrun.
    destruct (Z.eq_dec (alt_len alt) (orig_len alt)) as [E | E];
      [ exact E | ].
    rewrite (apply_alt_instr_len_bug b alt st Hcap E) in Hrun.
    discriminate Hrun.
Qed.


(** C3 (amended).  A relative branch of the replacement sequence whose
    target is neither in kernel text nor in core kernel data and lies in
    the span of the sequence, from its first address up to and including
    its end address, is not relocated: [get_alt_insn] returns its
    encoding, and the loop stores at the destination the four bytes found
    in the replacement sequence.  No address outside that closed span is
    treated as internal, and every address of it that is outside kernel
    text and core kernel data is. *)
Theorem internal_branch_copied (alt : alt_instr) (o r u : Z) (n : nat)
        (i : Z) (st : state) (insn : Z) :
  load_le32 (mem st) (u64 (r + 4 * i)) = insn ->
  aarch64_insn_is_branch_imm insn = true ->
  kernel_text_address (branch_target (u64 (r + 4 * i)) insn) = false ->
  core_kernel_data (branch_target (u64 (r + 4 * i)) insn) = false ->
  within_alt_seq alt (branch_target (u64 (r + 4 * i)) insn) ->
  get_alt_insn alt (u64 (o + 4 * i)) (u64 (r + 4 * i)) (mem st) = Some insn
  /\ patch_insns alt o r u (S n) i st
     = patch_insns alt o r u n (i + 1) (write_insn (u64 (u + 4 * i)) insn st)
  /\ (forall c, 0 <= c < 4 ->
        mem (write_insn (u64 (u + 4 * i)) insn st) (u64 (u + 4 * i + c))
        = mem st (u64 (r + 4 * i + c)))
  /\ (forall addr,
        address_needs_relocation_fixup alt addr = Some false ->
        within_alt_seq alt addr)
  /\ (forall addr,
        kernel_text_address addr = false -> core_kernel_data addr = false ->
        within_alt_seq alt addr ->
        address_needs_relocation_fixup alt addr = Some false).
Proof.
  intros Hload Hb Ht Hd Hin.
  assert (Hget : get_alt_insn alt (u64 (o + 4 * i)) (u64 (r + 4 * i)) (mem st)
                 = Some insn).
  { rewrite (get_alt_insn_branch alt _ _ (mem st) insn Hload Hb).
    replace (address_needs_relocation_fixup
               alt (branch_target (u64 (r + 4 * i)) insn))
      with (Some false); [ reflexivity | ].
    symmetry. apply fixup_internal. auto. }
  split; [ exact Hget | ]. split; [ | split; [ | split ] ].
  - cbn [patch_insns]. rewrite Hget. reflexivity.
  - intros c Hc. unfold write_insn. cbn [mem]. subst insn.
    rewrite <- (u64_add_l (u + 4 * i)), <- (u64_add_l (r + 4 * i)).
    apply copy_le32_bytes. exact Hc.
  - intros addr E. apply fixup_internal in E. apply E.
  - intros addr Hta Hda Hina. apply fixup_internal. auto.
Qed.

End Applier.

(** ** The polling protocol *)

Section Coordinator.

Context {codec : InsnCodec} {image : KernelImage}.

Lemma publish_count_app (tr1 tr2 : list event) :
  publish_count (tr1 ++ tr2) = (publish_count tr1 + publish_count tr2)%nat.
Proof. unfold publish_count. rewrite filter_app, length_app. reflexivity. Qed.

Lemma quiet_refl (st : state) : quiet st st.
Proof.
  split; [ reflexivity | ]. exists []. rewrite app_nil_r.
  split; reflexivity.
Qed.

Lemma quiet_trans (st1 st2 st3 : state) :
  quiet st1 st2 -> quiet st2 st3 -> quiet st1 st3.
Proof.
  intros (Hp1 & evs1 & Ht1 & Hc1) (Hp2 & evs2 & Ht2 & Hc2).
  split; [ congruence | ].
  exists (evs1 ++ evs2). split.
  - rewrite Ht2, Ht1, app_assoc. reflexivity.
  - rewrite publish_count_app, Hc1, Hc2. reflexivity.
Qed.

Lemma quiet_step (st : state) (pr : bool) (m : memory) (e : event) :
  is_publish e = false ->
  quiet st (mk_state m pr (patched st) (trace st ++ [e])).
Proof.
  intros He. split; [ reflexivity | ].
  exists [e]. split; [ reflexivity | ].
  unfold publish_count. cbn [filter]. rewrite He. reflexivity.
Qed.

Lemma pr_info_once_quiet (st : state) : quiet st (pr_info_once st).
Proof.
  unfold pr_info_once. destruct (printed_once st).
  - apply quiet_refl.
  - apply quiet_step. reflexivity.
Qed.

Lemma patch_insns_quiet (alt : alt_instr) (o r u : Z) (n : nat) :
  forall i st, quiet st (state_of (patch_insns alt o r u n i st)).
Proof.
  induction n as [| n IH]; intros i st; cbn [patch_insns].
  - apply quiet_refl.
  - destruct (get_alt_insn alt (u64 (o + 4 * i)) (u64 (r + 4 * i)) (mem st))
      as [insn |]; [ | apply quiet_refl ].
    eapply quiet_trans; [ | apply IH ].
    unfold write_insn. apply quiet_step. reflexivity.
Qed.

Lemma apply_alt_instr_quiet (b : bool) (alt : alt_instr) (st : state) :
  quiet st (state_of (apply_alt_instr b alt st)).
Proof.
  unfold apply_alt_instr.
  destruct (negb (cpus_have_cap (cpufeature alt))); [ apply quiet_refl | ].
  destruct (negb (alt_len alt =? orig_len alt)); [ apply quiet_refl | ].
  cbv zeta.
  pose proof (patch_insns_quiet
                alt (ALT_ORIG_PTR alt) (ALT_REPL_PTR alt)
                (if b then lm_alias (ALT_ORIG_PTR alt) else ALT_ORIG_PTR alt)
                (Z.to_nat (alt_len alt / 4)) 0 (pr_info_once st)) as Hq.
  destruct (patch_insns _ _ _ _ _ _ _) as [st1 | st1 | st1];
    cbn [bind state_of] in *.
  - eapply quiet_trans; [ apply pr_info_once_quiet | ].
    eapply quiet_trans; [ exact Hq | ].
    unfold flush_icache_range. apply quiet_step. reflexivity.
  - eapply quiet_trans; [ apply pr_info_once_quiet | exact Hq ].
  - eapply quiet_trans; [ apply pr_info_once_quiet | exact Hq ].
Qed.

Lemma apply_alternatives_quiet (region : list alt_instr) (b : bool) :
  forall st, quiet st (state_of (__apply_alternatives region b st)).
Proof.
  induction region as [| alt rest IH]; intros st;
    cbn [__apply_alternatives].
  - apply quiet_refl.
  - pose proof (apply_alt_instr_quiet b alt st) as Hq.
    destruct (apply_alt_instr b alt st) as [st1 | st1 | st1];
      cbn [bind state_of] in *; try exact Hq.
    eapply quiet_trans; [ exact Hq | apply IH ].
Qed.

Lemma multi_stop_guard (st : state) :
  patched st <> 0 -> __apply_alternatives_multi_stop 0 st = Bug st.
Proof.
  intros H. unfold __apply_alternatives_multi_stop.
  rewrite Z.eqb_refl. cbn [negb].
  apply Z.eqb_neq in H. rewrite H. reflexivity.
Qed.

(** A secondary CPU writes nothing: it leaves once [patched] is set, with
    an [isb], and polls as long as it is not. *)
Lemma secondary_cpu_polls (cpu : Z) (st : state) :
  cpu <> 0 ->
  __apply_alternatives_multi_stop cpu st
  = if patched st =? 0 then Polling st else Done (isb st).
Proof.
  intros H. unfold __apply_alternatives_multi_stop.
  apply Z.eqb_neq in H. rewrite H. cbn [negb].
  destruct (patched st =? 0); reflexivity.
Qed.

(** C8.  On CPU 0 the whole-image pass completes only from a state where
    [patched] is clear; it then has run [__apply_alternatives] over the
    whole table with the linear alias, and stored 1 to [patched] once, as
    its last action, after every store and flush of the pass.  Run again,
    it hits [BUG_ON(patched)] at once and changes nothing; so it does from
    every state where [patched] is set. *)
Theorem whole_image_pass_once (st st' : state) :
  __apply_alternatives_multi_stop 0 st = Done st' ->
  patched st = 0 /\ patched st' = 1
  /\ (exists st1,
         __apply_alternatives __alt_instructions true st = Done st1
         /\ st' = WRITE_ONCE_patched 1 st1)
  /\ (exists evs,
         trace st' = trace st ++ evs ++ [EvWritePatched 1]
         /\ publish_count evs = 0%nat)
  /\ __apply_alternatives_multi_stop 0 st' = Bug st'
  /\ (forall st2,
         patched st2 <> 0 -> __apply_alternatives_multi_stop 0 st2 = Bug st2).
Proof.
  intros Hrun. unfold __apply_alternatives_multi_stop in Hrun.
  rewrite Z.eqb_refl in Hrun. cbn [negb] in Hrun.
  destruct (patched st =? 0) eqn:Hp; cbn [negb] in Hrun;
    [ | discriminate Hrun ].
  apply Z.eqb_eq in Hp.
  apply bind_Done in Hrun. destruct Hrun as (st1 & Happ & Hpub).
  injection Hpub as Hpub. subst st'.
  pose proof (apply_alternatives_quiet __alt_instructions true st) as Hq.
  rewrite Happ in Hq. cbn [state_of] in Hq.
  destruct Hq as (_ & evs & Htr & Hcount).
  split; [ exact Hp | ]. split; [ reflexivity | ].
  split; [ exists st1; split; [ exact Happ | reflexivity ] | ].
  split.
  - exists evs. unfold WRITE_ONCE_patched. cbn [trace].
    rewrite Htr, app_assoc. split; [ reflexivity | exact Hcount ].
  - split; [ | exact multi_stop_guard ].
    apply multi_stop_guard. unfold WRITE_ONCE_patched. cbn [patched]. lia.
Qed.

End Coordinator.

(** ** Runs as sequences of events *)

Section Replay.

Context {codec : InsnCodec} {image : KernelImage}.

Lemma trace_perform (e : event) (st : state) :
  trace (perform e st) = trace st ++ [e].
Proof. destruct e; reflexivity. Qed.

Lemma trace_replay (evs : list event) :
  forall st, trace (replay evs st) = trace st ++ evs.
Proof.
  induction evs as [| e rest IH]; intros st; cbn [replay].
  - rewrite app_nil_r. reflexivity.
  - rewrite IH, trace_perform, <- app_assoc. reflexivity.
Qed.

Lemma replay_app (evs1 evs2 : list event) :
  forall st, replay (evs1 ++ evs2) st = replay evs2 (replay evs1 st).
Proof.
  induction evs1 as [| e rest IH]; intros st; cbn [replay app].
  - reflexivity.
  - apply IH.
Qed.

Lemma events_since_replay (evs : list event) (st : state) :
  events_since st (replay evs st) = evs.
Proof.
  unfold events_since. rewrite trace_replay, skipn_app, skipn_all.
  rewrite Nat.sub_diag. reflexivity.
Qed.



Lemma patch_insns_replay (alt : alt_instr) (o r u : Z) (n : nat) :
  forall i st,
    exists evs,
      state_of (patch_insns alt o r u n i st) = replay evs st
      /\ filter is_publish evs = []
      /\ (forall st', patch_insns alt o r u n i st <> Polling st').
Proof.
  induction n as [| n IH]; intros i st; cbn [patch_insns].
  - exists []. repeat split; try reflexivity. discriminate.
  - destruct (get_alt_insn alt (u64 (o + 4 * i)) (u64 (r + 4 * i)) (mem st))
      as [insn |].
    + destruct (IH (i + 1) (write_insn (u64 (u + 4 * i)) insn st))
        as (evs & Hst & Hpub & Hpoll).
      exists (EvStore (u64 (u + 4 * i)) insn :: evs).
      split; [ exact Hst | ]. split; [ exact Hpub | exact Hpoll ].
    + exists []. repeat split; try reflexivity. discriminate.
Qed.

Lemma apply_alt_instr_replay (b : bool) (alt : alt_instr) (st : state) :
  exists evs,
    state_of (apply_alt_instr b alt st) = replay evs st
    /\ filter is_publish evs = []
    /\ (forall st', apply_alt_instr b alt st <> Polling st').
Proof.
  unfold apply_alt_instr.
  destruct (negb (cpus_have_cap (cpufeature alt))).
  { exists []. repeat split; try reflexivity. discriminate. }
  destruct (negb (alt_len alt =? orig_len alt)).
  { exists []. repeat split; try reflexivity. discriminate. }
  cbv zeta.
  assert (Hpr : exists evs0, pr_info_once st = replay evs0 st
                             /\ filter is_publish evs0 = []).
  { unfold pr_info_once. destruct (printed_once st).
    - exists []. split; reflexivity.
    - exists [EvPrInfo]. split; reflexivity. }
  destruct Hpr as (evs0 & Hpr & Hpub0).
  destruct (patch_insns_replay
              alt (ALT_ORIG_PTR alt) (ALT_REPL_PTR alt)
              (if b then lm_alias (ALT_ORIG_PTR alt) else ALT_ORIG_PTR alt)
              (Z.to_nat (alt_len alt / 4)) 0 (pr_info_once st))
    as (evs1 & Hloop & Hpub1 & Hpoll).
  destruct (patch_insns _ _ _ _ _ _ _) as [st1 | st1 | st1];
    cbn [bind state_of] in *.
  - exists (evs0 ++ evs1
            ++ [EvFlushIcache (ALT_ORIG_PTR alt)
                  (u64 (ALT_ORIG_PTR alt + 4 * (alt_len alt / 4)))]).
    split; [ | split; [ | discriminate ] ].
    + rewrite !replay_app, <- Hpr, <- Hloop. reflexivity.
    + rewrite !filter_app, Hpub0, Hpub1. reflexivity.
  - exists (evs0 ++ evs1). split; [ | split; [ | discriminate ] ].
    + rewrite replay_app, <- Hpr, <- Hloop. reflexivity.
    + rewrite filter_app, Hpub0, Hpub1. reflexivity.
  - exfalso. exact (Hpoll st1 eq_refl).
Qed.

Lemma apply_alternatives_replay (region : list alt_instr) (b : bool) :
  forall st,
    exists evs,
      state_of (__apply_alternatives region b st) = replay evs st
      /\ filter is_publish evs = []
      /\ (forall st', __apply_alternatives region b st <> Polling st').
Proof.
  induction region as [| alt rest IH]; intros st; cbn [__apply_alternatives].
  - exists []. repeat split; try reflexivity. discriminate.
  - destruct (apply_alt_instr_replay b alt st) as (evs1 & H1 & Hpub1 & Hpoll1).
    destruct (apply_alt_instr b alt st) as [st1 | st1 | st1];
      cbn [bind state_of] in *.
    + destruct (IH st1) as (evs2 & H2 & Hpub2 & Hpoll2).
      exists (evs1 ++ evs2). split; [ | split; [ | exact Hpoll2 ] ].
      * rewrite replay_app, <- H1. exact H2.
      * rewrite filter_app, Hpub1, Hpub2. reflexivity.
    + exists evs1. split; [ exact H1 | ]. split; [ exact Hpub1 | discriminate ].
    + exfalso. exact (Hpoll1 st1 eq_refl).
Qed.

(** The pass of CPU 0 from a state where [patched] is clear: either it is
    fatal, having stored nothing to [patched], or it completes, and its
    one store to [patched] is its last event. *)
Lemma cpu0_pass_events (st0 : state) :
  patched st0 = 0 ->
  (exists evs,
      __apply_alternatives_multi_stop 0 st0
      = Done (replay (evs ++ [EvWritePatched 1]) st0)
      /\ __apply_alternatives __alt_instructions true st0
         = Done (replay evs st0)
      /\ filter is_publish evs = [])
  \/ (exists evs,
         __apply_alternatives_multi_stop 0 st0 = Bug (replay evs st0)
         /\ filter is_publish evs = []).
Proof.
  intros Hp. unfold __apply_alternatives_multi_stop.
  rewrite Z.eqb_refl, Hp. cbn [negb Z.eqb].
  destruct (apply_alternatives_replay __alt_instructions true st0)
    as (evs & Hst & Hpub & Hpoll).
  destruct (__apply_alternatives __alt_instructions true st0)
    as [st1 | st1 | st1]; cbn [bind state_of] in *.
  - left. exists evs. subst st1.
    split; [ rewrite replay_app; reflexivity | ].
    split; [ reflexivity | exact Hpub ].
  - right. exists evs. subst st1. split; [ reflexivity | exact Hpub ].
  - exfalso. exact (Hpoll st1 eq_refl).
Qed.

(** A run of the instruction loop that hits [BUG()]: the state is the one
    the stores made so far lead to. *)
Lemma patch_insns_bug (alt : alt_instr) (o r u : Z) (n : nat) :
  forall (i : Z) (st st' : state),
    patch_insns alt o r u n i st = Bug st' ->
    exists (j : nat) (stores : list event),
      (j < n)%nat
      /\ length stores = j
      /\ st' = replay stores st
      /\ get_alt_insn alt (u64 (o + 4 * (i + Z.of_nat j)))
                      (u64 (r + 4 * (i + Z.of_nat j))) (mem st') = None
      /\ forall k, (k < j)%nat ->
           exists w,
             nth_error stores k
             = Some (EvStore (u64 (u + 4 * (i + Z.of_nat k))) w)
             /\ get_alt_insn alt (u64 (o + 4 * (i + Z.of_nat k)))
                             (u64 (r + 4 * (i + Z.of_nat k)))
                             (mem (replay (firstn k stores) st))
                = Some w.
Proof.
  induction n as [| n IH]; intros i st st' Hrun; cbn [patch_insns] in Hrun.
  - discriminate Hrun.
  - destruct (get_alt_insn alt (u64 (o + 4 * i)) (u64 (r + 4 * i)) (mem st))
      as [insn |] eqn:Einsn.
    + apply IH in Hrun.
      destruct Hrun as (j & stores & Hj & Hlen & Hst & Hnone & Hwords).
      exists (S j), (EvStore (u64 (u + 4 * i)) insn :: stores).
      split; [ lia | ]. split; [ cbn [length]; rewrite Hlen; reflexivity | ].
      split; [ exact Hst | ]. split.
      * replace (i + Z.of_nat (S j)) with (i + 1 + Z.of_nat j) by lia.
        exact Hnone.
      * intros [| k] Hk.
        -- exists insn. change (Z.of_nat 0) with 0.
           replace (i + 0) with i by lia.
           split; [ reflexivity | exact Einsn ].
        -- destruct (Hwords k ltac:(lia)) as (w & Hnth & Hget).
           exists w.
           replace (i + Z.of_nat (S k)) with (i + 1 + Z.of_nat k) by lia.
           split; [ exact Hnth | exact Hget ].
    + injection Hrun as Hrun. subst st'.
      exists 0%nat, []. split; [ lia | ].
      change (Z.of_nat 0) with 0. replace (i + 0) with i by lia.
      repeat split; try reflexivity; try exact Einsn.
      intros k Hk. lia.
Qed.

End Replay.

(** ** Further properties of the patch applier *)

Section ApplierTraces.

Context {codec : InsnCodec} {image : KernelImage}.

Lemma patch_insns_events (p : event -> bool) (alt : alt_instr) (o r u : Z)
      (n : nat) :
  (forall a w, p (EvStore a w) = false) ->
  forall i st,
    filter p (trace (state_of (patch_insns alt o r u n i st)))
    = filter p (trace st)
    /\ printed_once (state_of (patch_insns alt o r u n i st)) = printed_once st.
Proof.
  intros Hp. induction n as [| n IH]; intros i st; cbn [patch_insns].
  - split; reflexivity.
  - destruct (get_alt_insn alt (u64 (o + 4 * i)) (u64 (r + 4 * i)) (mem st))
      as [insn |]; [ | split; reflexivity ].
    destruct (IH (i + 1) (write_insn (u64 (u + 4 * i)) insn st)) as (Ht & Hpr).
    rewrite Ht, Hpr. unfold write_insn. cbn [trace printed_once].
    rewrite filter_app. cbn [filter]. rewrite Hp, app_nil_r.
    split; reflexivity.
Qed.

Lemma apply_alt_instr_flushes (b : bool) (alt : alt_instr) (st st' : state) :
  apply_alt_instr b alt st = Done st' ->
  filter is_flush (trace st')
  = filter is_flush (trace st) ++ (if has_cap alt then [flush_of alt] else []).
Proof.
  unfold apply_alt_instr, has_cap.
  destruct (cpus_have_cap (cpufeature alt)); cbn [negb].
  - destruct (negb (alt_len alt =? orig_len alt)); [ discriminate | ].
    cbv zeta. intros Hrun. apply bind_Done in Hrun.
    destruct Hrun as (st1 & Hloop & Hflush).
    injection Hflush as Hflush. subst st'.
    pose proof (patch_insns_events
                  is_flush alt (ALT_ORIG_PTR alt) (ALT_REPL_PTR alt)
                  (if b then lm_alias (ALT_ORIG_PTR alt) else ALT_ORIG_PTR alt)
                  (Z.to_nat (alt_len alt / 4)) ltac:(reflexivity)
                  0 (pr_info_once st)) as (Ht & _).
    rewrite Hloop in Ht. cbn [state_of] in Ht.
    unfold flush_icache_range. cbn [trace].
    rewrite filter_app, Ht. cbn [filter is_flush]. f_equal.
    unfold pr_info_once. destruct (printed_once st); [ reflexivity | ].
    cbn [trace]. rewrite filter_app. cbn [filter is_flush].
    apply app_nil_r.
  - intros Hrun. injection Hrun as Hrun. subst st'.
    rewrite app_nil_r. reflexivity.
Qed.

(** X1.  A region walked to its end has flushed once per site whose
    capability is detected, in table order, each time the range
    [origptr, origptr + 4 * (alt_len / 4)) of that site, and has flushed
    nothing else. *)
Theorem flushes_follow_table (region : list alt_instr) (b : bool)
        (st st' : state) :
  __apply_alternatives region b st = Done st' ->
  filter is_flush (trace st')
  = filter is_flush (trace st) ++ map flush_of (filter has_cap region).
Proof.
  revert st. induction region as [| alt rest IH]; intros st Hrun;
    cbn [__apply_alternatives] in Hrun.
  - injection Hrun as Hrun. subst st'. cbn [filter map].
    rewrite app_nil_r. reflexivity.
  - apply bind_Done in Hrun. destruct Hrun as (st1 & Hone & Hrest).
    rewrite (IH st1 Hrest), (apply_alt_instr_flushes b alt st st1 Hone).
    rewrite <- app_assoc. f_equal. cbn [filter].
    destruct (has_cap alt); reflexivity.
Qed.

Lemma apply_alt_instr_pr_info (b : bool) (alt : alt_instr) (st : state) :
  filter is_pr_info (trace (state_of (apply_alt_instr b alt st)))
  = filter is_pr_info (trace st)
    ++ (if printed_once st then []
        else if printed_once (state_of (apply_alt_instr b alt st))
             then [EvPrInfo] else [])
  /\ (printed_once st = true ->
      printed_once (state_of (apply_alt_instr b alt st)) = true).
Proof.
  unfold apply_alt_instr.
  destruct (negb (cpus_have_cap (cpufeature alt))).
  { cbn [state_of]. destruct (printed_once st); rewrite app_nil_r; auto. }
  destruct (negb (alt_len alt =? orig_len alt)).
  { cbn [state_of]. destruct (printed_once st); rewrite app_nil_r; auto. }
  cbv zeta.
  pose proof (patch_insns_events
                is_pr_info alt (ALT_ORIG_PTR alt) (ALT_REPL_PTR alt)
                (if b then lm_alias (ALT_ORIG_PTR alt) else ALT_ORIG_PTR alt)
                (Z.to_nat (alt_len alt / 4)) ltac:(reflexivity)
                0 (pr_info_once st)) as (Ht & Hpr).
  assert (Hstate :
            filter is_pr_info
              (trace (state_of
                 (bind (patch_insns alt (ALT_ORIG_PTR alt) (ALT_REPL_PTR alt)
                          (if b then lm_alias (ALT_ORIG_PTR alt)
                           else ALT_ORIG_PTR alt)
                          (Z.to_nat (alt_len alt / 4)) 0 (pr_info_once st))
                       (fun st0 =>
                          Done (flush_icache_range
                                  (ALT_ORIG_PTR alt)
                                  (u64 (ALT_ORIG_PTR alt
                                        + 4 * (alt_len alt / 4))) st0)))))
            = filter is_pr_info (trace (pr_info_once st))
            /\ printed_once
                 (state_of
                    (bind (patch_insns alt (ALT_ORIG_PTR alt)
                             (ALT_REPL_PTR alt)
                             (if b then lm_alias (ALT_ORIG_PTR alt)
                              else ALT_ORIG_PTR alt)
                             (Z.to_nat (alt_len alt / 4)) 0 (pr_info_once st))
                          (fun st0 =>
                             Done (flush_icache_range
                                     (ALT_ORIG_PTR alt)
                                     (u64 (ALT_ORIG_PTR alt
                                           + 4 * (alt_len alt / 4))) st0))))
               = printed_once (pr_info_once st)).
  { destruct (patch_insns _ _ _ _ _ _ _) as [st1 | st1 | st1];
      cbn [bind state_of] in *; try (split; assumption).
    unfold flush_icache_range. cbn [trace printed_once].
    rewrite filter_app, Ht. cbn [filter is_pr_info].
    rewrite app_nil_r. split; [ reflexivity | exact Hpr ]. }
  destruct Hstate as (Htr & Hprinted). rewrite Htr, Hprinted.
  unfold pr_info_once. destruct (printed_once st) eqn:E.
  - rewrite E, app_nil_r. auto.
  - cbn [trace printed_once]. rewrite filter_app. cbn [filter is_pr_info].
    split; [ reflexivity | discriminate ].
Qed.

(** X2.  [pr_info_once]: however many sites a region applies, and whether
    the walk ends or hits [BUG()], the message is printed at most once, and
    not at all when it has been printed before; the flag that records it is
    never cleared. *)
Theorem message_printed_once (region : list alt_instr) (b : bool)
        (st : state) :
  filter is_pr_info (trace (state_of (__apply_alternatives region b st)))
  = filter is_pr_info (trace st)
    ++ (if printed_once st then []
        else if printed_once (state_of (__apply_alternatives region b st))
             then [EvPrInfo] else [])
  /\ (printed_once st = true ->
      printed_once (state_of (__apply_alternatives region b st)) = true).
Proof.
  revert st. induction region as [| alt rest IH]; intros st;
    cbn [__apply_alternatives].
  - cbn [state_of]. destruct (printed_once st); rewrite app_nil_r; auto.
  - destruct (apply_alt_instr_pr_info b alt st) as (Ht1 & Hp1).
    destruct (apply_alt_instr b alt st) as [st1 | st1 | st1];
      cbn [bind state_of] in *; try (split; assumption).
    destruct (IH st1) as (Ht2 & Hp2). rewrite Ht2, Ht1, <- app_assoc.
    split.
    + f_equal. destruct (printed_once st) eqn:E.
      * rewrite (Hp1 eq_refl). reflexivity.
      * destruct (printed_once st1) eqn:E1.
        -- rewrite (Hp2 eq_refl). reflexivity.
        -- reflexivity.
    + intros H. apply Hp2, Hp1, H.
Qed.

End ApplierTraces.

Section ApplierRuns.

Context {codec : InsnCodec} {image : KernelImage}.

(** X3.  [apply_alternatives], the entry point for a region of a module,
    never stores to [patched] and never issues [isb]: whatever the region
    and whether the walk ends or hits [BUG()], [patched] keeps its value and
    the trace gains no such event. *)
Theorem module_pass_never_publishes (region : list alt_instr) (st : state) :
  patched (state_of (apply_alternatives region st)) = patched st
  /\ filter is_publish (trace (state_of (apply_alternatives region st)))
     = filter is_publish (trace st)
  /\ filter is_isb (trace (state_of (apply_alternatives region st)))
     = filter is_isb (trace st).
Proof.
  unfold apply_alternatives.
  assert (H : forall reg s,
             patched (state_of (__apply_alternatives reg false s)) = patched s
             /\ filter is_publish
                  (trace (state_of (__apply_alternatives reg false s)))
                = filter is_publish (trace s)
             /\ filter is_isb
                  (trace (state_of (__apply_alternatives reg false s)))
                = filter is_isb (trace s)).
  { induction reg as [| alt rest IH]; intros s; cbn [__apply_alternatives].
    - repeat split; reflexivity.
    - assert (Hone : patched (state_of (apply_alt_instr false alt s))
                     = patched s
                     /\ filter is_publish
                          (trace (state_of (apply_alt_instr false alt s)))
                        = filter is_publish (trace s)
                     /\ filter is_isb
                          (trace (state_of (apply_alt_instr false alt s)))
                        = filter is_isb (trace s)).
      { unfold apply_alt_instr.
        destruct (negb (cpus_have_cap (cpufeature alt)));
          [ repeat split; reflexivity | ].
        destruct (negb (alt_len alt =? orig_len alt));
          [ repeat split; reflexivity | ].
        cbv zeta.
        pose proof (patch_insns_quiet
                      alt (ALT_ORIG_PTR alt) (ALT_REPL_PTR alt)
                      (ALT_ORIG_PTR alt) (Z.to_nat (alt_len alt / 4)) 0
                      (pr_info_once s)) as (Hq & _).
        pose proof (patch_insns_events
                      is_publish alt (ALT_ORIG_PTR alt) (ALT_REPL_PTR alt)
                      (ALT_ORIG_PTR alt) (Z.to_nat (alt_len alt / 4))
                      ltac:(reflexivity) 0 (pr_info_once s)) as (Hp & _).
        pose proof (patch_insns_events
                      is_isb alt (ALT_ORIG_PTR alt) (ALT_REPL_PTR alt)
                      (ALT_ORIG_PTR alt) (Z.to_nat (alt_len alt / 4))
                      ltac:(reflexivity) 0 (pr_info_once s)) as (Hi & _).
        assert (Hpr : patched (pr_info_once s) = patched s
                      /\ filter is_publish (trace (pr_info_once s))
                         = filter is_publish (trace s)
                      /\ filter is_isb (trace (pr_info_once s))
                         = filter is_isb (trace s)).
        { unfold pr_info_once. destruct (printed_once s);
            [ repeat split; reflexivity | ].
          cbn [patched trace]. rewrite !filter_app. cbn [filter].
          rewrite !app_nil_r. repeat split; reflexivity. }
        destruct Hpr as (Hpr1 & Hpr2 & Hpr3).
        destruct (patch_insns _ _ _ _ _ _ _) as [s1 | s1 | s1];
          cbn [bind state_of] in *;
          try (rewrite Hq, Hp, Hi; repeat split; assumption).
        unfold flush_icache_range. cbn [patched trace].
        rewrite !filter_app. cbn [filter is_publish is_isb].
        rewrite !app_nil_r, Hq, Hp, Hi. repeat split; assumption. }
      destruct Hone as (H1 & H2 & H3).
      destruct (apply_alt_instr false alt s) as [s1 | s1 | s1];
        cbn [bind state_of] in *; try (repeat split; assumption).
      destruct (IH s1) as (I1 & I2 & I3).
      rewrite I1, I2, I3. repeat split; assumption. }
  apply H.
Qed.

(** X4.  Two regions walked one after the other are walked as their
    concatenation: when the first walk ends, the whole is the second walk
    from the state the first one left; when the first walk hits [BUG()],
    so does the whole, in the same state, and no site of the second region
    is looked at. *)
Theorem regions_compose (r1 r2 : list alt_instr) (st : state) :
  (forall st1, apply_alternatives r1 st = Done st1 ->
               apply_alternatives (r1 ++ r2) st = apply_alternatives r2 st1)
  /\ (forall st1, apply_alternatives r1 st = Bug st1 ->
                  apply_alternatives (r1 ++ r2) st = Bug st1).
Proof.
  unfold apply_alternatives. split; intros st1 H;
    rewrite apply_alternatives_app, H; reflexivity.
Qed.

(** X5.  When an instruction of an applied site is fatal, the words before
    it have been stored at [updptr], [updptr + 4], ..., each the word
    [get_alt_insn] returned on the memory of that moment; the state in
    which [BUG()] fires is the state those stores lead to; nothing after
    them is stored, and the site is not flushed. *)
Theorem fatal_insn_leaves_site_unflushed (b : bool) (alt : alt_instr)
        (st st' : state) :
  cpus_have_cap (cpufeature alt) = true ->
  alt_len alt = orig_len alt ->
  apply_alt_instr b alt st = Bug st' ->
  exists (j : Z) (stores : list event),
    0 <= j < alt_len alt / 4
    /\ Z.of_nat (length stores) = j
    /\ st' = replay stores (pr_info_once st)
    /\ trace st' = trace (pr_info_once st) ++ stores
    /\ (forall k, 0 <= k < j ->
          exists w,
            nth_error stores (Z.to_nat k)
            = Some (EvStore (u64 (ALT_UPD_PTR b alt + 4 * k)) w)
            /\ get_alt_insn alt (u64 (ALT_ORIG_PTR alt + 4 * k))
                            (u64 (ALT_REPL_PTR alt + 4 * k))
                            (mem (replay (firstn (Z.to_nat k) stores)
                                         (pr_info_once st)))
               = Some w)
    /\ get_alt_insn alt (u64 (ALT_ORIG_PTR alt + 4 * j))
                    (u64 (ALT_REPL_PTR alt + 4 * j)) (mem st') = None
    /\ filter is_flush (trace st') = filter is_flush (trace st).
Proof.
  intros Hcap Hlen Hrun.
  rewrite (apply_alt_instr_go b alt st Hcap Hlen) in Hrun.
  destruct (patch_insns alt (ALT_ORIG_PTR alt) (ALT_REPL_PTR alt)
                        (ALT_UPD_PTR b alt) (Z.to_nat (alt_len alt / 4)) 0
                        (pr_info_once st)) as [s1 | s1 | s1] eqn:Eloop;
    cbn [bind] in Hrun; try discriminate Hrun.
  injection Hrun as Hrun. subst s1.
  pose proof (patch_insns_events
                is_flush alt (ALT_ORIG_PTR alt) (ALT_REPL_PTR alt)
                (ALT_UPD_PTR b alt) (Z.to_nat (alt_len alt / 4))
                ltac:(reflexivity) 0 (pr_info_once st)) as (Hfl & _).
  rewrite Eloop in Hfl. cbn [state_of] in Hfl.
  apply patch_insns_bug in Eloop.
  destruct Eloop as (j & stores & Hj & Hlength & Hst & Hnone & Hwords).
  exists (Z.of_nat j), stores.
  split; [ lia | ]. split; [ rewrite Hlength; reflexivity | ].
  split; [ exact Hst | ].
  split; [ rewrite Hst; apply trace_replay | ].
  split; [ | split; [ exact Hnone | ] ].
  - intros k Hk.
    destruct (Hwords (Z.to_nat k) ltac:(lia)) as (w & Hnth & Hget).
    rewrite Z2Nat.id in Hnth, Hget by lia.
    replace (0 + k) with k in Hnth, Hget by lia.
    exists w. split; [ exact Hnth | exact Hget ].
  - rewrite Hfl. unfold pr_info_once. destruct (printed_once st);
      [ reflexivity | ].
    cbn [trace]. rewrite filter_app. cbn [filter is_flush]. apply app_nil_r.
Qed.

(** X6.  The protocol in program order: while CPU 0 has not completed its
    pass a secondary CPU polls and changes nothing; in the state CPU 0
    leaves, every secondary CPU returns at once, having added one [isb] and
    nothing else, with the memory CPU 0 left. *)
Theorem secondary_released_by_publish (cpu : Z) (st st' : state) :
  cpu <> 0 ->
  __apply_alternatives_multi_stop 0 st = Done st' ->
  __apply_alternatives_multi_stop cpu st = Polling st
  /\ __apply_alternatives_multi_stop cpu st' = Done (isb st')
  /\ mem (isb st') = mem st'
  /\ patched (isb st') = 1
  /\ trace (isb st') = trace st' ++ [EvIsb].
Proof.
  intros Hcpu Hrun.
  assert (Hp : patched st = 0 /\ patched st' = 1).
  { unfold __apply_alternatives_multi_stop in Hrun.
    rewrite Z.eqb_refl in Hrun. cbn [negb] in Hrun.
    destruct (patched st =? 0) eqn:E; cbn [negb] in Hrun;
      [ | discriminate Hrun ].
    apply Z.eqb_eq in E. apply bind_Done in Hrun.
    destruct Hrun as (s1 & _ & Hpub). injection Hpub as Hpub. subst st'.
    split; [ exact E | reflexivity ]. }
  destruct Hp as (Hp0 & Hp1).
  rewrite !(secondary_cpu_polls cpu _ Hcpu), Hp0, Hp1.
  repeat split; try reflexivity. exact Hp1.
Qed.

End ApplierRuns.

(** ** Further properties of the relocator *)

(** X7.  For a power of two [a = 2 ^ k] that fits an [unsigned long],
    [align_down(x, a)] is the greatest multiple of [a] that is not above
    [x]; aligning twice is aligning once. *)
Theorem align_down_pow2 (x k : Z) :
  0 <= k < 64 ->
  align_down x (2 ^ k) = 2 ^ k * (u64 x / 2 ^ k)
  /\ align_down x (2 ^ k) <= u64 x < align_down x (2 ^ k) + 2 ^ k
  /\ align_down (align_down x (2 ^ k)) (2 ^ k) = align_down x (2 ^ k).
Proof.
  intros Hk.
  assert (Hpow : 0 < 2 ^ k) by (apply Z.pow_pos_nonneg; lia).
  assert (Hlt : 2 ^ k < 2 ^ 64) by (apply Z.pow_lt_mono_r; lia).
  assert (Hform : forall y, align_down y (2 ^ k) = 2 ^ k * (u64 y / 2 ^ k)).
  { intros y. unfold align_down.
    pose proof (u64_range y) as Hy.
    rewrite (u64_small (2 ^ k)) by lia.
    replace (2 ^ k - 1) with (Z.ones k)
      by (rewrite Z.ones_equiv; lia).
    rewrite (u64_small (Z.ones k)) by (rewrite Z.ones_equiv; lia).
    unfold u64 at 2. rewrite <- (Z.land_ones _ 64) by lia.
    rewrite Z.land_assoc, <- Z.ldiff_land.
    rewrite Z.land_ones by lia.
    assert (Hd : 0 <= Z.ldiff (u64 y) (Z.ones k) < 2 ^ 64).
    { rewrite Z.ldiff_ones_r by lia.
      rewrite Z.shiftr_div_pow2, Z.shiftl_mul_pow2 by lia.
      pose proof (Z.mul_div_le (u64 y) (2 ^ k) Hpow).
      assert (0 <= u64 y / 2 ^ k) by (apply Z.div_pos; lia).
      nia. }
    rewrite Z.mod_small by exact Hd.
    rewrite Z.ldiff_ones_r by lia.
    rewrite Z.shiftr_div_pow2, Z.shiftl_mul_pow2 by lia. lia. }
  pose proof (u64_range x) as Hx.
  pose proof (Z.mul_div_le (u64 x) (2 ^ k) Hpow) as Hle.
  pose proof (Z.mod_pos_bound (u64 x) (2 ^ k) Hpow) as Hmod.
  pose proof (Z.div_mod (u64 x) (2 ^ k) ltac:(lia)) as Hdm.
  assert (Hq : 0 <= u64 x / 2 ^ k) by (apply Z.div_pos; lia).
  split; [ apply Hform | ]. split.
  - rewrite Hform. lia.
  - rewrite (Hform (align_down x (2 ^ k))), (Hform x).
    rewrite (u64_small (2 ^ k * (u64 x / 2 ^ k))) by nia.
    f_equal. rewrite Z.mul_comm. apply Z.div_mul. lia.
Qed.

Section RelocatorMore.

Context {codec : InsnCodec} {image : KernelImage}.

Lemma mod4096_u64 (x : Z) : u64 x mod 4096 = x mod 4096.
Proof.
  unfold u64. apply Z.mod_mod_divide. exists (2 ^ 52); reflexivity.
Qed.

Lemma mod4096_s32 (x : Z) : s32 x mod 4096 = x mod 4096.
Proof.
  rewrite <- (Z.mod_mod_divide (s32 x) (2 ^ 32) 4096)
    by (exists (2 ^ 20); reflexivity).
  rewrite s32_congr.
  apply Z.mod_mod_divide. exists (2 ^ 20); reflexivity.
Qed.

(** X8.  A relocated [adrp] keeps its target page: the new offset added to
    the page of the final address and the old offset added to the page of
    the replacement address agree on their low 32 bits, and are the same
    64-bit address when the displacement fits an [s32].  When the old
    offset is a whole number of pages, so are the target and the new
    offset. *)
Theorem adrp_keeps_target (alt : alt_instr) (insnptr altinsnptr : Z)
        (m : memory) (insn : Z) :
  load_le32 m altinsnptr = insn ->
  aarch64_insn_is_branch_imm insn = false ->
  aarch64_insn_is_adrp insn = true ->
  address_needs_relocation_fixup alt (adrp_target altinsnptr insn) = Some true ->
  get_alt_insn alt insnptr altinsnptr m =
    Some (aarch64_insn_adrp_set_offset
            insn (s32 (u64 (adrp_target altinsnptr insn
                            - align_down insnptr SZ_4K))))
  /\ (s32 (u64 (adrp_target altinsnptr insn - align_down insnptr SZ_4K))
      + align_down insnptr SZ_4K) mod 2 ^ 32
     = (s32 (aarch64_insn_adrp_get_offset insn)
        + align_down altinsnptr SZ_4K) mod 2 ^ 32
  /\ (- 2 ^ 31 <= s64 (adrp_target altinsnptr insn - align_down insnptr SZ_4K)
      < 2 ^ 31 ->
      u64 (s32 (u64 (adrp_target altinsnptr insn - align_down insnptr SZ_4K))
           + align_down insnptr SZ_4K)
      = u64 (s32 (aarch64_insn_adrp_get_offset insn)
             + align_down altinsnptr SZ_4K))
  /\ (s32 (aarch64_insn_adrp_get_offset insn) mod 4096 = 0 ->
      adrp_target altinsnptr insn mod 4096 = 0
      /\ s32 (u64 (adrp_target altinsnptr insn - align_down insnptr SZ_4K))
         mod 4096 = 0).
Proof.
  intros Hload Hb Hp Hfix. split; [ | split; [ | split ] ].
  - rewrite (get_alt_insn_adrp alt insnptr altinsnptr m insn Hload Hb Hp).
    rewrite Hfix. reflexivity.
  - rewrite relocated_offset_congr. unfold adrp_target.
    rewrite mod32_u64. f_equal. lia.
  - intros Hfit. rewrite (relocated_offset_reaches _ _ Hfit).
    unfold adrp_target. rewrite u64_idem. f_equal. lia.
  - intros Hpages.
    assert (Ht : adrp_target altinsnptr insn mod 4096 = 0).
    { unfold adrp_target. rewrite mod4096_u64, align_down_4K.
      rewrite Z.add_mod, Hpages by lia.
      rewrite Z.mul_comm, Z.mod_mul by lia. reflexivity. }
    split; [ exact Ht | ].
    rewrite mod4096_s32, mod4096_u64, align_down_4K.
    rewrite Zminus_mod, Ht.
    rewrite (Z.mul_comm 4096), Z.mod_mul by lia. reflexivity.
Qed.

(** X9.  [get_alt_insn] returns a word other than the one it read only for
    a branch or an [adrp] whose target is in kernel text or core kernel
    data: every other instruction that is not fatal goes through
    bit-identical. *)
Theorem only_external_targets_rewritten (alt : alt_instr)
        (insnptr altinsnptr : Z) (m : memory) (w : Z) :
  get_alt_insn alt insnptr altinsnptr m = Some w ->
  w <> load_le32 m altinsnptr ->
  (aarch64_insn_is_branch_imm (load_le32 m altinsnptr) = true
   /\ known_region (branch_target altinsnptr (load_le32 m altinsnptr))
   /\ w = aarch64_set_branch_offset
            (load_le32 m altinsnptr)
            (s32 (u64 (branch_target altinsnptr (load_le32 m altinsnptr)
                       - insnptr))))
  \/ (aarch64_insn_is_branch_imm (load_le32 m altinsnptr) = false
      /\ aarch64_insn_is_adrp (load_le32 m altinsnptr) = true
      /\ known_region (adrp_target altinsnptr (load_le32 m altinsnptr))
      /\ w = aarch64_insn_adrp_set_offset
               (load_le32 m altinsnptr)
               (s32 (u64 (adrp_target altinsnptr (load_le32 m altinsnptr)
                          - align_down insnptr SZ_4K)))).
Proof.
  intros Hget Hne.
  destruct (aarch64_insn_is_branch_imm (load_le32 m altinsnptr)) eqn:Hb.
  - left. rewrite (get_alt_insn_branch alt _ _ m _ eq_refl Hb) in Hget.
    destruct (address_needs_relocation_fixup
                alt (branch_target altinsnptr (load_le32 m altinsnptr)))
      as [[|]|] eqn:E; try discriminate Hget.
    + apply fixup_external in E. injection Hget as Hget.
      split; [ reflexivity | ]. split; [ exact E | symmetry; exact Hget ].
    + injection Hget as Hget. symmetry in Hget. contradiction.
  - right.
    destruct (aarch64_insn_is_adrp (load_le32 m altinsnptr)) eqn:Hp.
    + rewrite (get_alt_insn_adrp alt _ _ m _ eq_refl Hb Hp) in Hget.
      destruct (address_needs_relocation_fixup
                  alt (adrp_target altinsnptr (load_le32 m altinsnptr)))
        as [[|]|] eqn:E; try discriminate Hget.
      * apply fixup_external in E. injection Hget as Hget.
        split; [ reflexivity | ]. split; [ reflexivity | ].
        split; [ exact E | symmetry; exact Hget ].
      * injection Hget as Hget. symmetry in Hget. contradiction.
    + exfalso. apply Hne.
      destruct (aarch64_insn_is_adr (load_le32 m altinsnptr)) eqn:Ha.
      * rewrite (get_alt_insn_adr alt _ _ m _ eq_refl Hb Hp Ha) in Hget.
        destruct (address_needs_relocation_fixup _ _) as [[|]|];
          try discriminate Hget.
        injection Hget as Hget. symmetry. exact Hget.
      * unfold get_alt_insn in Hget. rewrite Hb, Hp, Ha in Hget.
        destruct (aarch64_insn_uses_literal (load_le32 m altinsnptr));
          [ discriminate Hget | ].
        injection Hget as Hget. symmetry. exact Hget.
Qed.

End RelocatorMore.

(** ** The replacement block as the source of the patch *)

Section ApplierMemory.

Context {codec : InsnCodec} {image : KernelImage}.

(** [get_alt_insn] reads the four bytes at [altinsnptr] and no other. *)
Lemma get_alt_insn_frame (alt : alt_instr) (insnptr p : Z) (m m' : memory) :
  (forall c, 0 <= c < 4 -> m (u64 (p + c)) = m' (u64 (p + c))) ->
  get_alt_insn alt insnptr p m = get_alt_insn alt insnptr p m'.
Proof.
  intros H. unfold get_alt_insn.
  replace (load_le32 m p) with (load_le32 m' p); [ reflexivity | ].
  unfold load_le32.
  rewrite <- (H 1), <- (H 2), <- (H 3) by lia.
  pose proof (H 0 ltac:(lia)) as H0.
  replace (p + 0) with p in H0 by lia. rewrite H0. reflexivity.
Qed.

Lemma get_alt_insn_plain (alt : alt_instr) (insnptr p : Z) (m : memory) :
  plain_insn (load_le32 m p) ->
  get_alt_insn alt insnptr p m = Some (load_le32 m p).
Proof.
  intros (Hb & Hp & Ha & Hl). unfold get_alt_insn.
  rewrite Hb, Hp, Ha, Hl. reflexivity.
Qed.

(** Byte [c] of the word read at [q] is the byte at [q + c]. *)
Lemma byte_of_load_le32 (m : memory) (q c : Z) :
  0 <= c < 4 -> byte_of_Z (load_le32 m q / 2 ^ (8 * c)) = m (u64 (q + c)).
Proof.
  intros Hc.
  rewrite <- (store_le32_byte m 0 (load_le32 m q) c Hc).
  apply copy_le32_bytes. exact Hc.
Qed.

(** Writing a word at the destination leaves the replacement block as it
    is. *)
Lemma write_insn_keeps_block (u r len i insn k : Z) (st : state) :
  block_disjoint u r len ->
  0 <= i -> 4 * i + 4 <= len -> 0 <= k < len ->
  mem (write_insn (u64 (u + 4 * i)) insn st) (u64 (r + k))
  = mem st (u64 (r + k)).
Proof.
  intros Hdis Hi Hlen Hk. unfold write_insn. cbn [mem].
  apply store_le32_other. intros c Hc.
  rewrite u64_add_l, <- Z.add_assoc.
  intros E. symmetry in E. revert E. apply Hdis; lia.
Qed.

Lemma patch_insns_done_from (alt : alt_instr) (o r u len : Z) (m0 : memory)
      (n : nat) :
  block_disjoint u r len -> len < 2 ^ 64 ->
  forall (i : Z) (st st' : state),
    0 <= i -> 4 * (i + Z.of_nat n) <= len ->
    (forall k, 4 * i <= k < 4 * (i + Z.of_nat n) ->
               mem st (u64 (r + k)) = m0 (u64 (r + k))) ->
    patch_insns alt o r u n i st = Done st' ->
    forall k, i <= k < i + Z.of_nat n ->
      exists w,
        get_alt_insn alt (u64 (o + 4 * k)) (u64 (r + 4 * k)) m0 = Some w
        /\ forall c, 0 <= c < 4 ->
             mem st' (u64 (u + (4 * k + c))) = byte_of_Z (w / 2 ^ (8 * c)).
Proof.
  intros Hdis Hlen.
  induction n as [| n IH]; intros i st st' Hi Hbound Hagree Hrun k Hk.
  - lia.
  - cbn [patch_insns] in Hrun.
    destruct (get_alt_insn alt (u64 (o + 4 * i)) (u64 (r + 4 * i)) (mem st))
      as [insn |] eqn:Einsn; [ | discriminate Hrun ].
    destruct (Z.eq_dec k i) as [-> | Hne].
    + exists insn. split.
      * rewrite <- Einsn. apply get_alt_insn_frame. intros c Hc.
        rewrite u64_add_l, <- Z.add_assoc. symmetry. apply Hagree. lia.
      * intros c Hc.
        apply patch_insns_done in Hrun; [ | lia | lia ].
        destruct Hrun as (_ & _ & _ & Hframe).
        rewrite Hframe.
        -- unfold write_insn. cbn [mem].
           replace (u64 (u + (4 * i + c))) with (u64 (u64 (u + 4 * i) + c))
             by (rewrite u64_add_l; f_equal; lia).
           apply store_le32_byte. exact Hc.
        -- intros j Hj E. apply u64_add_inj in E; lia.
    + apply (IH (i + 1) (write_insn (u64 (u + 4 * i)) insn st) st');
        try lia; try exact Hrun.
      intros k' Hk'.
      rewrite (write_insn_keeps_block u r len i insn k' st Hdis) by lia.
      apply Hagree. lia.
Qed.

Lemma patch_insns_succeeds (alt : alt_instr) (o r u len : Z) (m0 : memory)
      (n : nat) :
  block_disjoint u r len ->
  forall (i : Z) (st : state),
    0 <= i -> 4 * (i + Z.of_nat n) <= len ->
    (forall k, 4 * i <= k < 4 * (i + Z.of_nat n) ->
               mem st (u64 (r + k)) = m0 (u64 (r + k))) ->
    (forall k, i <= k < i + Z.of_nat n ->
               get_alt_insn alt (u64 (o + 4 * k)) (u64 (r + 4 * k)) m0
               <> None) ->
    exists st', patch_insns alt o r u n i st = Done st'.
Proof.
  intros Hdis.
  induction n as [| n IH]; intros i st Hi Hbound Hagree Hsome;
    cbn [patch_insns].
  - exists st. reflexivity.
  - replace (get_alt_insn alt (u64 (o + 4 * i)) (u64 (r + 4 * i)) (mem st))
      with (get_alt_insn alt (u64 (o + 4 * i)) (u64 (r + 4 * i)) m0).
    + destruct (get_alt_insn alt (u64 (o + 4 * i)) (u64 (r + 4 * i)) m0)
        as [insn |] eqn:Einsn.
      * apply IH; try lia.
        -- intros k' Hk'.
           rewrite (write_insn_keeps_block u r len i insn k' st Hdis) by lia.
           apply Hagree. lia.
        -- intros k' Hk'. apply Hsome. lia.
      * exfalso. apply (Hsome i); [ lia | exact Einsn ].
    + apply get_alt_insn_frame. intros c Hc.
      rewrite u64_add_l, <- Z.add_assoc. symmetry. apply Hagree. lia.
Qed.

(** What an applied site with a destination disjoint from its replacement
    block leaves in memory. *)
Lemma apply_alt_instr_done_from (b : bool) (alt : alt_instr) (m0 : memory)
      (st st' : state) :
  cpus_have_cap (cpufeature alt) = true ->
  0 <= alt_len alt < 2 ^ 8 ->
  block_disjoint (ALT_UPD_PTR b alt) (ALT_REPL_PTR alt)
                 (4 * (alt_len alt / 4)) ->
  (forall j, 0 <= j < 4 * (alt_len alt / 4) ->
             mem st (u64 (ALT_REPL_PTR alt + j))
             = m0 (u64 (ALT_REPL_PTR alt + j))) ->
  apply_alt_instr b alt st = Done st' ->
  (forall k, 0 <= k < alt_len alt / 4 ->
     exists w,
       get_alt_insn alt (u64 (ALT_ORIG_PTR alt + 4 * k))
                    (u64 (ALT_REPL_PTR alt + 4 * k)) m0 = Some w
       /\ forall c, 0 <= c < 4 ->
            mem st' (u64 (ALT_UPD_PTR b alt + (4 * k + c)))
            = byte_of_Z (w / 2 ^ (8 * c)))
  /\ (forall a,
        (forall j, 0 <= j < 4 * (alt_len alt / 4) ->
                   a <> u64 (ALT_UPD_PTR b alt + j)) ->
        mem st' a = mem st a).
Proof.
  intros Hcap Hu8 Hdis Hagree Hrun.
  assert (Hlen : alt_len alt = orig_len alt).
  { destruct (Z.eq_dec (alt_len alt) (orig_len alt)) as [E | E];
      [ exact E | ].
    rewrite (apply_alt_instr_len_bug b alt st Hcap E) in Hrun.
    discriminate Hrun. }
  rewrite (apply_alt_instr_go b alt st Hcap Hlen) in Hrun.
  apply bind_Done in Hrun. destruct Hrun as (st1 & Hloop & Hflush).
  injection Hflush as Hflush. subst st'.
  change (2 ^ 8) with 256 in Hu8.
  assert (Hnr : 0 <= alt_len alt / 4 < 64)
    by (split; [ apply Z.div_pos; lia | apply Z.div_lt_upper_bound; lia ]).
  unfold flush_icache_range. cbn [mem]. split.
  - intros k Hk.
    apply (patch_insns_done_from
             alt (ALT_ORIG_PTR alt) (ALT_REPL_PTR alt) (ALT_UPD_PTR b alt)
             (4 * (alt_len alt / 4)) m0 (Z.to_nat (alt_len alt / 4))
             Hdis ltac:(change (2 ^ 64) with 18446744073709551616; lia)
             0 (pr_info_once st) st1); try lia; try exact Hloop.
    rewrite mem_pr_info_once. intros j Hj. apply Hagree. lia.
  - intros a Ha.
    apply patch_insns_done in Hloop;
      [ | lia | rewrite Z2Nat.id by lia;
                change (2 ^ 64) with 18446744073709551616; lia ].
    destruct Hloop as (_ & _ & _ & Hframe).
    rewrite Hframe, mem_pr_info_once; [ reflexivity | ].
    intros j Hj. apply Ha. lia.
Qed.

(** X10.  When the destination of an applied site does not overlap its
    replacement block, every word stored is [get_alt_insn] of the word the
    block held before the site was entered, and the block itself is left
    as it was. *)
Theorem patch_from_disjoint_block (b : bool) (alt : alt_instr)
        (st st' : state) :
  cpus_have_cap (cpufeature alt) = true ->
  0 <= alt_len alt < 2 ^ 8 ->
  block_disjoint (ALT_UPD_PTR b alt) (ALT_REPL_PTR alt)
                 (4 * (alt_len alt / 4)) ->
  apply_alt_instr b alt st = Done st' ->
  (forall k, 0 <= k < alt_len alt / 4 ->
     exists w,
       get_alt_insn alt (u64 (ALT_ORIG_PTR alt + 4 * k))
                    (u64 (ALT_REPL_PTR alt + 4 * k)) (mem st) = Some w
       /\ forall c, 0 <= c < 4 ->
            mem st' (u64 (ALT_UPD_PTR b alt + (4 * k + c)))
            = byte_of_Z (w / 2 ^ (8 * c)))
  /\ (forall j, 0 <= j < 4 * (alt_len alt / 4) ->
        mem st' (u64 (ALT_REPL_PTR alt + j))
        = mem st (u64 (ALT_REPL_PTR alt + j))).
Proof.
  intros Hcap Hu8 Hdis Hrun.
  destruct (apply_alt_instr_done_from b alt (mem st) st st' Hcap Hu8 Hdis
              ltac:(reflexivity) Hrun) as (Hwords & Hframe).
  split; [ exact Hwords | ].
  intros j Hj. apply Hframe. intros j' Hj' E.
  symmetry in E. revert E. apply Hdis; assumption.
Qed.

(** X11.  A site whose replacement block holds nothing [get_alt_insn]
    relocates or refuses is applied without fail, and its destination then
    holds, byte for byte, the whole words of the block. *)
Theorem plain_block_is_copied (b : bool) (alt : alt_instr) (st : state) :
  cpus_have_cap (cpufeature alt) = true ->
  alt_len alt = orig_len alt ->
  0 <= alt_len alt < 2 ^ 8 ->
  block_disjoint (ALT_UPD_PTR b alt) (ALT_REPL_PTR alt)
                 (4 * (alt_len alt / 4)) ->
  (forall k, 0 <= k < alt_len alt / 4 ->
             plain_insn (load_le32 (mem st) (u64 (ALT_REPL_PTR alt + 4 * k)))) ->
  exists st',
    apply_alt_instr b alt st = Done st'
    /\ forall j, 0 <= j < 4 * (alt_len alt / 4) ->
         mem st' (u64 (ALT_UPD_PTR b alt + j))
         = mem st (u64 (ALT_REPL_PTR alt + j)).
Proof.
  intros Hcap Hlen Hu8 Hdis Hplain.
  assert (Hu8' : 0 <= alt_len alt < 256) by exact Hu8.
  assert (Hnr : 0 <= alt_len alt / 4 < 64)
    by (split; [ apply Z.div_pos; lia | apply Z.div_lt_upper_bound; lia ]).
  destruct (patch_insns_succeeds
              alt (ALT_ORIG_PTR alt) (ALT_REPL_PTR alt) (ALT_UPD_PTR b alt)
              (4 * (alt_len alt / 4)) (mem st) (Z.to_nat (alt_len alt / 4))
              Hdis 0 (pr_info_once st)) as (st1 & Hloop); try lia.
  { intros k Hk. rewrite mem_pr_info_once. reflexivity. }
  { intros k Hk. rewrite get_alt_insn_plain by (apply Hplain; lia).
    discriminate. }
  assert (Hrun : apply_alt_instr b alt st
                 = Done (flush_icache_range
                           (ALT_ORIG_PTR alt)
                           (u64 (ALT_ORIG_PTR alt + 4 * (alt_len alt / 4)))
                           st1)).
  { rewrite (apply_alt_instr_go b alt st Hcap Hlen), Hloop. reflexivity. }
  eexists. split; [ exact Hrun | ].
  destruct (apply_alt_instr_done_from b alt (mem st) st _ Hcap Hu8 Hdis
              ltac:(reflexivity) Hrun) as (Hwords & _).
  intros j Hj.
  pose proof (Z.div_mod j 4 ltac:(lia)) as Hdm.
  pose proof (Z.mod_pos_bound j 4 ltac:(lia)) as Hmod.
  assert (Hk : 0 <= j / 4 < alt_len alt / 4).
  { split; [ apply Z.div_pos; lia | apply Z.div_lt_upper_bound; lia ]. }
  destruct (Hwords (j / 4) Hk) as (w & Hget & Hbytes).
  rewrite get_alt_insn_plain in Hget by (apply Hplain; exact Hk).
  injection Hget as Hget. subst w.
  rewrite Hdm at 1. rewrite (Hbytes (j mod 4) Hmod).
  rewrite byte_of_load_le32 by exact Hmod.
  rewrite u64_add_l.
  replace (ALT_REPL_PTR alt + 4 * (j / 4) + j mod 4)
    with (ALT_REPL_PTR alt + j) by lia.
  reflexivity.
Qed.

(** X12.  Applying a site a second time, its destination not overlapping
    its replacement block, succeeds again and leaves every byte of memory
    as the first application left it. *)
Theorem apply_twice_same_memory (b : bool) (alt : alt_instr)
        (st st1 : state) :
  cpus_have_cap (cpufeature alt) = true ->
  0 <= alt_len alt < 2 ^ 8 ->
  block_disjoint (ALT_UPD_PTR b alt) (ALT_REPL_PTR alt)
                 (4 * (alt_len alt / 4)) ->
  apply_alt_instr b alt st = Done st1 ->
  exists st2,
    apply_alt_instr b alt st1 = Done st2
    /\ forall a, mem st2 a = mem st1 a.
Proof.
  intros Hcap Hu8 Hdis Hrun.
  assert (Hu8' : 0 <= alt_len alt < 256) by exact Hu8.
  assert (Hnr : 0 <= alt_len alt / 4 < 64)
    by (split; [ apply Z.div_pos; lia | apply Z.div_lt_upper_bound; lia ]).
  assert (Hlen : alt_len alt = orig_len alt).
  { destruct (Z.eq_dec (alt_len alt) (orig_len alt)) as [E | E];
      [ exact E | ].
    rewrite (apply_alt_instr_len_bug b alt st Hcap E) in Hrun.
    discriminate Hrun. }
  destruct (apply_alt_instr_done_from b alt (mem st) st st1 Hcap Hu8 Hdis
              ltac:(reflexivity) Hrun) as (Hwords1 & Hframe1).
  assert (Hblock : forall j, 0 <= j < 4 * (alt_len alt / 4) ->
                     mem st1 (u64 (ALT_REPL_PTR alt + j))
                     = mem st (u64 (ALT_REPL_PTR alt + j))).
  { intros j Hj. apply Hframe1. intros j' Hj' E.
    symmetry in E. revert E. apply Hdis; assumption. }
  destruct (patch_insns_succeeds
              alt (ALT_ORIG_PTR alt) (ALT_REPL_PTR alt) (ALT_UPD_PTR b alt)
              (4 * (alt_len alt / 4)) (mem st) (Z.to_nat (alt_len alt / 4))
              Hdis 0 (pr_info_once st1)) as (s2 & Hloop); try lia.
  { intros k Hk. rewrite mem_pr_info_once. apply Hblock. lia. }
  { intros k Hk. destruct (Hwords1 k ltac:(lia)) as (w & Hget & _).
    rewrite Hget. discriminate. }
  assert (Hrun2 : apply_alt_instr b alt st1
                  = Done (flush_icache_range
                            (ALT_ORIG_PTR alt)
                            (u64 (ALT_ORIG_PTR alt + 4 * (alt_len alt / 4)))
                            s2)).
  { rewrite (apply_alt_instr_go b alt st1 Hcap Hlen), Hloop. reflexivity. }
  eexists. split; [ exact Hrun2 | ].
  destruct (apply_alt_instr_done_from b alt (mem st) st1 _ Hcap Hu8 Hdis
              Hblock Hrun2) as (Hwords2 & Hframe2).
  intros a.
  set (j0 := u64 (a - ALT_UPD_PTR b alt)).
  destruct (Z_lt_dec j0 (4 * (alt_len alt / 4))) as [Hlt | Hge].
  - destruct (Z.eq_dec a (u64 (ALT_UPD_PTR b alt + j0))) as [Ea | Na].
    + pose proof (u64_range (a - ALT_UPD_PTR b alt)) as Hj0.
      fold j0 in Hj0.
      pose proof (Z.div_mod j0 4 ltac:(lia)) as Hdm.
      pose proof (Z.mod_pos_bound j0 4 ltac:(lia)) as Hmod.
      assert (Hk : 0 <= j0 / 4 < alt_len alt / 4).
      { split; [ apply Z.div_pos; lia | apply Z.div_lt_upper_bound; lia ]. }
      destruct (Hwords1 (j0 / 4) Hk) as (w1 & Hget1 & Hbytes1).
      destruct (Hwords2 (j0 / 4) Hk) as (w2 & Hget2 & Hbytes2).
      assert (w2 = w1) by congruence. subst w2.
      rewrite Ea, Hdm.
      rewrite (Hbytes2 (j0 mod 4) Hmod), (Hbytes1 (j0 mod 4) Hmod).
      reflexivity.
    + apply Hframe2. intros j Hj E. apply Na.
      assert (Ej : j0 = j).
      { unfold j0. rewrite E, u64_sub_l.
        replace (ALT_UPD_PTR b alt + j - ALT_UPD_PTR b alt) with j by lia.
        apply u64_small. change (2 ^ 64) with 18446744073709551616. lia. }
      rewrite Ej. exact E.
  - apply Hframe2. intros j Hj E. apply Hge.
    assert (Ej : j0 = j).
    { unfold j0. rewrite E, u64_sub_l.
      replace (ALT_UPD_PTR b alt + j - ALT_UPD_PTR b alt) with j by lia.
      apply u64_small. change (2 ^ 64) with 18446744073709551616. lia. }
    lia.
Qed.

End ApplierMemory.

(** ** Offsets and the distance an instruction moves *)

Section RelocatorShift.

Context {codec : InsnCodec} {image : KernelImage}.

Lemma s32_same_low_bits (x y : Z) :
  x mod 2 ^ 32 = y mod 2 ^ 32 -> s32 x = s32 y.
Proof.
  intros H. unfold s32. f_equal.
  rewrite <- (Zplus_mod_idemp_l x), <- (Zplus_mod_idemp_l y), H.
  reflexivity.
Qed.

Lemma s32_shift (base off final : Z) :
  s32 (u64 (u64 (base + off) - final)) = s32 (off + (base - final)).
Proof.
  rewrite s32_u64. apply s32_same_low_bits.
  rewrite Zminus_mod, mod32_u64, <- Zminus_mod. f_equal. lia.
Qed.

(** X13.  The offset given to a relocated branch is the old offset plus the
    distance from the final address back to the replacement address,
    narrowed to [s32]; for a relocated [adrp] it is the old offset plus the
    distance between the two pages.  An instruction that does not move
    (or an [adrp] that stays in its page) is re-encoded with the offset it
    had. *)
Theorem relocated_offset_is_shifted (alt : alt_instr) (insnptr altinsnptr : Z)
        (m : memory) (insn : Z) :
  load_le32 m altinsnptr = insn ->
  (aarch64_insn_is_branch_imm insn = true ->
   address_needs_relocation_fixup alt (branch_target altinsnptr insn) = Some true ->
   get_alt_insn alt insnptr altinsnptr m
   = Some (aarch64_set_branch_offset
             insn (s32 (s32 (aarch64_get_branch_offset insn)
                        + (altinsnptr - insnptr))))
   /\ (insnptr = altinsnptr ->
       get_alt_insn alt insnptr altinsnptr m
       = Some (aarch64_set_branch_offset
                 insn (s32 (aarch64_get_branch_offset insn)))))
  /\ (aarch64_insn_is_branch_imm insn = false ->
      aarch64_insn_is_adrp insn = true ->
      address_needs_relocation_fixup alt (adrp_target altinsnptr insn) = Some true ->
      get_alt_insn alt insnptr altinsnptr m
      = Some (aarch64_insn_adrp_set_offset
                insn (s32 (s32 (aarch64_insn_adrp_get_offset insn)
                           + (align_down altinsnptr SZ_4K
                              - align_down insnptr SZ_4K))))
      /\ (align_down insnptr SZ_4K = align_down altinsnptr SZ_4K ->
          get_alt_insn alt insnptr altinsnptr m
          = Some (aarch64_insn_adrp_set_offset
                    insn (s32 (aarch64_insn_adrp_get_offset insn))))).
Proof.
  intros Hload. split.
  - intros Hb Hfix.
    rewrite (get_alt_insn_branch alt insnptr altinsnptr m insn Hload Hb), Hfix.
    unfold branch_target. rewrite s32_shift.
    split; [ reflexivity | ].
    intros ->. replace (altinsnptr - altinsnptr) with 0 by lia.
    rewrite Z.add_0_r, (s32_small (s32 _)) by apply s32_range.
    reflexivity.
  - intros Hb Hp Hfix.
    rewrite (get_alt_insn_adrp alt insnptr altinsnptr m insn Hload Hb Hp), Hfix.
    unfold adrp_target. rewrite s32_shift.
    split; [ reflexivity | ].
    intros ->.
    replace (align_down altinsnptr SZ_4K - align_down altinsnptr SZ_4K)
      with 0 by lia.
    rewrite Z.add_0_r, (s32_small (s32 _)) by apply s32_range.
    reflexivity.
Qed.

End RelocatorShift.

(** Two blocks that lie apart, neither wrapping around the address space,
    share no byte. *)
Lemma block_disjoint_apart (u r len : Z) :
  0 <= u -> 0 <= r -> u + len <= 2 ^ 64 -> r + len <= 2 ^ 64 ->
  u + len <= r \/ r + len <= u ->
  block_disjoint u r len.
Proof.
  intros Hu Hr Hul Hrl Hapart j k Hj Hk.
  change (2 ^ 64) with 18446744073709551616 in *.
  rewrite !u64_small by (change (2 ^ 64) with 18446744073709551616; lia).
  lia.
Qed.

(** ** The polling protocol, all CPUs at once *)

Section Interleaving.

Context {codec : InsnCodec} {image : KernelImage}.


(** The state CPU 0 ends in is the replay of the events it adds. *)
Lemma cpu0_pass_is_replay (st0 : state) :
  patched st0 = 0 ->
  state_of (__apply_alternatives_multi_stop 0 st0)
  = replay (events_since st0 (state_of (__apply_alternatives_multi_stop 0 st0)))
           st0.
Proof.
  intros Hp.
  destruct (cpu0_pass_events st0 Hp) as [(evs & Hrun & _) | (evs & Hrun & _)];
    rewrite Hrun; cbn [state_of]; rewrite events_since_replay; reflexivity.
Qed.







Lemma cpu0_steps_replay (evs : list event) :
  forall st s l,
    shared (run (repeat Cpu0Step (length evs)) (mk_machine st evs s l))
    = replay evs st.
Proof.
  induction evs as [| e rest IH]; intros st s l; cbn [length repeat replay].
  - reflexivity.
  - unfold run. cbn [fold_left exec cpu0_todo shared seen left].
    apply IH.
Qed.

(** Left alone, CPU 0 steps through its events to the state its function
    returns. *)
Lemma cpu0_alone (st0 : state) :
  patched st0 = 0 ->
  shared (run (repeat Cpu0Step (length (cpu0_todo (boot_machine st0))))
              (boot_machine st0))
  = state_of (__apply_alternatives_multi_stop 0 st0).
Proof.
  intros Hp. unfold boot_machine. cbn [cpu0_todo].
  rewrite cpu0_steps_replay. symmetry. apply cpu0_pass_is_replay. exact Hp.
Qed.

End Interleaving.

(** * The theorems at work on the sample images *)

(** C1, on [b F] of [site_far]: moved from [0xffff000008b00000] to
    [0xffff000008091000], the branch is re-encoded with the offset
    [0x16F000] and still reaches [F = 0xffff000008200000]. *)
Lemma branch_relocated_witness :
  get_alt_insn (codec := A64.codec) (image := Sample.boot_image)
               Sample.site_far 0xffff000008091000 0xffff000008b00000
               (mem Sample.boot_state)
  = Some (A64.set_branch_offset 0x17DC0000 0x16F000)
  /\ u64 (0x16F000 + 0xffff000008091000)
     = u64 (A64.get_branch_offset 0x17DC0000 + 0xffff000008b00000)
  /\ u64 (0x16F000 + 0xffff000008091000) = 0xffff000008200000.
Proof.
  destruct (branch_relocated (codec := A64.codec) (image := Sample.boot_image)
              Sample.site_far 0xffff000008091000 0xffff000008b00000
              (mem Sample.boot_state) 0x17DC0000) as (Hget & _ & Hreach).
  - by_evaluation.
  - by_evaluation.
  - by_evaluation.
  - split; [ exact Hget | ].
    split; [ | by_evaluation ].
    apply Hreach. by_evaluation.
Defined.

(** C1 as stated fails on [site_high]: the branch target is in kernel text,
    2280058880 bytes above the final address of the instruction.  The offset
    handed to the encoder is the [s32] -2014908416, and from the final
    address it leads 4 GiB below the target. *)
Lemma branch_round_trip_counterexample :
  aarch64_insn_is_branch_imm (InsnCodec := A64.codec)
    (load_le32 (mem Sample.high_state) 0xffff000090000000) = true
  /\ branch_target (codec := A64.codec) 0xffff000090000000 0x17FC0000
     = 0xffff00008ff00000
  /\ address_needs_relocation_fixup (image := Sample.high_image)
       Sample.site_high 0xffff00008ff00000 = Some true
  /\ get_alt_insn (codec := A64.codec) (image := Sample.high_image)
       Sample.site_high 0xffff000008091000 0xffff000090000000
       (mem Sample.high_state)
     = Some (A64.set_branch_offset 0x17FC0000 (-2014908416))
  /\ u64 (-2014908416 + 0xffff000008091000) = 0xfffeffff8ff00000
  /\ u64 (A64.get_branch_offset 0x17FC0000 + 0xffff000090000000)
     = 0xffff00008ff00000
  /\ u64 (-2014908416 + 0xffff000008091000)
     <> u64 (A64.get_branch_offset 0x17FC0000 + 0xffff000090000000).
Proof.
  repeat split; by_evaluation.
Qed.

(** C2, at the failing input.  On [site_in_text] the replacement sequence
    sits in kernel text.  [0xffff000008880004], its second instruction, is
    within the sequence, where the comment of
    [address_needs_relocation_fixup] asks for no fixup; the kernel-text test
    comes first and the answer is "needs relocation".  So [b .+4], which
    branches inside the sequence, is rewritten by [get_alt_insn] although
    "it is already correct". *)
Theorem fixup_inside_text_block :
  (ALT_REPL_PTR (image := Sample.text_image) Sample.site_in_text
   <= 0xffff000008880004
   < ALT_REPL_PTR (image := Sample.text_image) Sample.site_in_text
     + alt_len Sample.site_in_text)
  /\ kernel_text_address (KernelImage := Sample.text_image)
       0xffff000008880004 = true
  /\ address_needs_relocation_fixup (image := Sample.text_image)
       Sample.site_in_text 0xffff000008880004 = Some true
  /\ load_le32 (mem Sample.text_state) 0xffff000008880000 = 0x14000001
  /\ branch_target (codec := A64.codec) 0xffff000008880000 0x14000001
     = 0xffff000008880004
  /\ get_alt_insn (codec := A64.codec) (image := Sample.text_image)
       Sample.site_in_text 0xffff000008091000 0xffff000008880000
       (mem Sample.text_state) = Some 0x141FBC01.
Proof.
  repeat split; by_evaluation.
Qed.

(** C3, on the first [b .+4] of [site_near]: its target is the second
    instruction of the sequence; the word is returned as it is and its four
    bytes arrive unchanged at the destination. *)
Lemma internal_branch_copied_witness :
  get_alt_insn (codec := A64.codec) (image := Sample.boot_image)
               Sample.site_near (u64 (0xffff000008093000 + 4 * 0))
               (u64 (0xffff000008b00010 + 4 * 0)) (mem Sample.boot_state)
  = Some 0x14000001
  /\ forall c, 0 <= c < 4 ->
       mem (write_insn (u64 (0xffff000008093000 + 4 * 0)) 0x14000001
                       Sample.boot_state)
           (u64 (0xffff000008093000 + 4 * 0 + c))
       = mem Sample.boot_state (u64 (0xffff000008b00010 + 4 * 0 + c)).
Proof.
  destruct (internal_branch_copied (codec := A64.codec)
              (image := Sample.boot_image) Sample.site_near
              0xffff000008093000 0xffff000008b00010 0xffff000008093000
              1 0 Sample.boot_state 0x14000001) as (Hget & _ & Hcopy & _).
  - by_evaluation.
  - by_evaluation.
  - by_evaluation.
  - by_evaluation.
  - by_evaluation.
  - split; [ exact Hget | exact Hcopy ].
Defined.

(** C3 as stated fails on [site_near]: the second [b .+4] targets
    [0xffff000008b00018], the end address of the sequence, outside
    [repl, repl + 8); in no known region, it is treated as internal and the
    word is returned as it is. *)
Lemma internal_span_counterexample :
  (0xffff000008b00018
   = ALT_REPL_PTR (image := Sample.boot_image) Sample.site_near
     + alt_len Sample.site_near)
  /\ load_le32 (mem Sample.boot_state) 0xffff000008b00014 = 0x14000001
  /\ aarch64_insn_is_branch_imm (InsnCodec := A64.codec) 0x14000001 = true
  /\ branch_target (codec := A64.codec) 0xffff000008b00014 0x14000001
     = 0xffff000008b00018
  /\ kernel_text_address (KernelImage := Sample.boot_image)
       0xffff000008b00018 = false
  /\ core_kernel_data (KernelImage := Sample.boot_image)
       0xffff000008b00018 = false
  /\ address_needs_relocation_fixup (image := Sample.boot_image)
       Sample.site_near 0xffff000008b00018 = Some false
  /\ get_alt_insn (codec := A64.codec) (image := Sample.boot_image)
       Sample.site_near 0xffff000008093004 0xffff000008b00014
       (mem Sample.boot_state) = Some 0x14000001.
Proof.
  repeat split; by_evaluation.
Qed.

(** C4, on [adrp x0, D] of [site_far]: the target page is
    [0xffff000008c10000]; moved to [0xffff000008091004] the instruction is
    re-encoded with the offset [0xB7F000] from the page
    [0xffff000008091000]. *)
Lemma adrp_relocated_witness :
  adrp_target (codec := A64.codec) 0xffff000008b00004 0x90000880
  = 0xffff000008c10000
  /\ get_alt_insn (codec := A64.codec) (image := Sample.boot_image)
       Sample.site_far 0xffff000008091004 0xffff000008b00004
       (mem Sample.boot_state)
     = Some (A64.adrp_set_offset 0x90000880 0xB7F000)
  /\ s64 (0xffff000008c10000 - 4096 * (u64 0xffff000008091004 / 4096))
     = 0xB7F000.
Proof.
  destruct (adrp_relocated (codec := A64.codec) (image := Sample.boot_image)
              Sample.site_far 0xffff000008091004 0xffff000008b00004
              (mem Sample.boot_state) 0x90000880)
    as (Htarget & Hreloc & Hfits & _).
  - by_evaluation.
  - by_evaluation.
  - by_evaluation.
  - split; [ by_evaluation | ].
    split; [ | by_evaluation ].
    apply Hreloc. by_evaluation.
Defined.

(** C4 as stated fails on [site_high] with [adrp x0, .-0x1000000]: the
    target page [0xffff00008f000000] is in kernel text, 2264330240 bytes
    above the page of the final address; the offset handed to the encoder
    is the [s32] -2030637056. *)
Lemma adrp_offset_counterexample :
  load_le32 (mem Sample.high_adrp_state) 0xffff000090000000 = 0x90FF8000
  /\ aarch64_insn_is_branch_imm (InsnCodec := A64.codec) 0x90FF8000 = false
  /\ aarch64_insn_is_adrp (InsnCodec := A64.codec) 0x90FF8000 = true
  /\ adrp_target (codec := A64.codec) 0xffff000090000000 0x90FF8000
     = 0xffff00008f000000
  /\ address_needs_relocation_fixup (image := Sample.high_image)
       Sample.site_high 0xffff00008f000000 = Some true
  /\ 0xffff00008f000000 - align_down 0xffff000008091000 SZ_4K = 2264330240
  /\ get_alt_insn (codec := A64.codec) (image := Sample.high_image)
       Sample.site_high 0xffff000008091000 0xffff000090000000
       (mem Sample.high_adrp_state)
     = Some (A64.adrp_set_offset 0x90FF8000 (-2030637056))
  /\ A64.adrp_set_offset 0x90FF8000 (-2030637056)
     <> A64.adrp_set_offset 0x90FF8000 2264330240
  /\ -2030637056 <> 2264330240.
Proof.
  repeat split; by_evaluation.
Qed.

(** C5, on [site_off]: capability 9 is not detected; the site is passed
    over although its lengths differ, and the table does what it does
    without that site. *)
Lemma skipped_site_untouched_witness :
  alt_len Sample.site_off <> orig_len Sample.site_off
  /\ apply_alt_instr (codec := A64.codec) (image := Sample.boot_image)
       true Sample.site_off Sample.boot_state = Done Sample.boot_state
  /\ __apply_alternatives (codec := A64.codec) (image := Sample.boot_image)
       ([Sample.site_far] ++ Sample.site_off
          :: [Sample.site_near; Sample.site_odd]) true Sample.boot_state
     = __apply_alternatives (codec := A64.codec) (image := Sample.boot_image)
         ([Sample.site_far] ++ [Sample.site_near; Sample.site_odd]) true
         Sample.boot_state.
Proof.
  destruct (skipped_site_untouched (codec := A64.codec)
              (image := Sample.boot_image) true Sample.site_off)
    as (Hone & Hregion).
  - by_evaluation.
  - split; [ by_evaluation | ].
    split; [ apply Hone | apply Hregion ].
Defined.

(** C6, on [site_stale]: capability 7 is detected and the lengths differ;
    [BUG_ON] fires in the state the site is reached in, here after
    [site_far] has been patched. *)
Lemma length_mismatch_is_fatal_witness :
  apply_alt_instr (codec := A64.codec) (image := Sample.boot_image)
    false Sample.site_stale Sample.boot_state = Bug Sample.boot_state
  /\ __apply_alternatives (codec := A64.codec) (image := Sample.boot_image)
       ([Sample.site_far] ++ Sample.site_stale :: [Sample.site_near]) false
       Sample.boot_state
     = Bug (state_of
              (__apply_alternatives (codec := A64.codec)
                 (image := Sample.boot_image) [Sample.site_far] false
                 Sample.boot_state)).
Proof.
  destruct (length_mismatch_is_fatal (codec := A64.codec)
              (image := Sample.boot_image) false Sample.site_stale)
    as (Hbug & _).
  - by_evaluation.
  - destruct Hbug as (Hone & Hregion).
    + by_evaluation.
    + split; [ apply Hone | ].
      apply Hregion. by_evaluation.
Defined.



(** C8, on the boot image: CPU 0 completes the pass from the boot state,
    [patched] is then 1, and a second pass is fatal at once. *)
Lemma whole_image_pass_once_witness :
  exists st',
    __apply_alternatives_multi_stop (codec := A64.codec)
      (image := Sample.boot_image) 0 Sample.boot_state = Done st'
    /\ patched Sample.boot_state = 0 /\ patched st' = 1
    /\ __apply_alternatives_multi_stop (codec := A64.codec)
         (image := Sample.boot_image) 0 st' = Bug st'.
Proof.
  assert (Hrun : __apply_alternatives_multi_stop (codec := A64.codec)
                   (image := Sample.boot_image) 0 Sample.boot_state
                 = Done (state_of
                           (__apply_alternatives_multi_stop
                              (codec := A64.codec)
                              (image := Sample.boot_image) 0
                              Sample.boot_state)))
    by (by_evaluation).
  destruct (whole_image_pass_once (codec := A64.codec)
              (image := Sample.boot_image) _ _ Hrun)
    as (H0 & H1 & _ & _ & Hagain & _).
  eexists. split; [ exact Hrun | ].
  split; [ exact H0 | ]. split; [ exact H1 | exact Hagain ].
Defined.



(** * The further properties at work on the sample images *)

(** X1, on the boot table walked by [apply_alternatives]: three sites are
    applied and three ranges flushed, in table order. *)
Lemma flushes_follow_table_witness :
  exists st',
    __apply_alternatives (codec := A64.codec) (image := Sample.boot_image)
      Sample.table false Sample.boot_state = Done st'
    /\ filter is_flush (trace st')
       = [ EvFlushIcache 0xffff000008091000 0xffff000008091008;
           EvFlushIcache 0xffff000008093000 0xffff000008093008;
           EvFlushIcache 0xffff000008094000 0xffff000008094004 ].
Proof.
  assert (Hrun : __apply_alternatives (codec := A64.codec)
                   (image := Sample.boot_image) Sample.table false
                   Sample.boot_state
                 = Done (state_of
                           (__apply_alternatives (codec := A64.codec)
                              (image := Sample.boot_image) Sample.table
                              false Sample.boot_state)))
    by by_evaluation.
  pose proof (flushes_follow_table (codec := A64.codec)
                (image := Sample.boot_image) _ _ _ _ Hrun) as Hfl.
  eexists. split; [ exact Hrun | ].
  rewrite Hfl. by_evaluation.
Defined.

(** X4, on [site_far] followed by [site_stale]: the first region is walked
    to its end, the second is fatal, in the state the first one left. *)
Lemma regions_compose_witness :
  exists st1,
    apply_alternatives (codec := A64.codec) (image := Sample.boot_image)
      [Sample.site_far] Sample.boot_state = Done st1
    /\ apply_alternatives (codec := A64.codec) (image := Sample.boot_image)
         ([Sample.site_far] ++ [Sample.site_stale]) Sample.boot_state
       = apply_alternatives (codec := A64.codec) (image := Sample.boot_image)
           [Sample.site_stale] st1.
Proof.
  assert (Hrun : apply_alternatives (codec := A64.codec)
                   (image := Sample.boot_image) [Sample.site_far]
                   Sample.boot_state
                 = Done (state_of
                           (apply_alternatives (codec := A64.codec)
                              (image := Sample.boot_image) [Sample.site_far]
                              Sample.boot_state)))
    by by_evaluation.
  destruct (regions_compose (codec := A64.codec) (image := Sample.boot_image)
              [Sample.site_far] [Sample.site_stale] Sample.boot_state)
    as (Hdone & _).
  eexists. split; [ exact Hrun | exact (Hdone _ Hrun) ].
Defined.

(** X5, on [site_late]: [nop] is stored at the destination, [ldr x0, .+8]
    is fatal; one store, no flush. *)
Lemma fatal_insn_leaves_site_unflushed_witness :
  exists st',
    apply_alt_instr (codec := A64.codec) (image := Sample.boot_image)
      false Sample.site_late Sample.late_state = Bug st'
    /\ st' = replay [ EvPrInfo; EvStore 0xffff000008098000 0xD503201F ]
                    Sample.late_state
    /\ load_le32 (mem st') 0xffff000008098000 = 0xD503201F
    /\ filter is_flush (trace st') = [].
Proof.
  assert (Hrun : apply_alt_instr (codec := A64.codec)
                   (image := Sample.boot_image) false Sample.site_late
                   Sample.late_state
                 = Bug (state_of
                          (apply_alt_instr (codec := A64.codec)
                             (image := Sample.boot_image) false
                             Sample.site_late Sample.late_state)))
    by by_evaluation.
  destruct (fatal_insn_leaves_site_unflushed
              (codec := A64.codec) (image := Sample.boot_image)
              false Sample.site_late _ _
              ltac:(by_evaluation) ltac:(by_evaluation) Hrun)
    as (j & stores & _ & _ & _ & _ & _ & _ & Hfl).
  eexists. split; [ exact Hrun | ].
  split; [ by_evaluation | ]. split; [ by_evaluation | ].
  rewrite Hfl. by_evaluation.
Defined.

(** X6, on the boot image: CPU 1 polls in the boot state and leaves with an
    [isb] in the state CPU 0 reaches. *)
Lemma secondary_released_by_publish_witness :
  exists st',
    __apply_alternatives_multi_stop (codec := A64.codec)
      (image := Sample.boot_image) 0 Sample.boot_state = Done st'
    /\ __apply_alternatives_multi_stop (codec := A64.codec)
         (image := Sample.boot_image) 1 Sample.boot_state
       = Polling Sample.boot_state
    /\ __apply_alternatives_multi_stop (codec := A64.codec)
         (image := Sample.boot_image) 1 st' = Done (isb st').
Proof.
  assert (Hrun : __apply_alternatives_multi_stop (codec := A64.codec)
                   (image := Sample.boot_image) 0 Sample.boot_state
                 = Done (state_of
                           (__apply_alternatives_multi_stop
                              (codec := A64.codec)
                              (image := Sample.boot_image) 0
                              Sample.boot_state)))
    by by_evaluation.
  destruct (secondary_released_by_publish
              (codec := A64.codec) (image := Sample.boot_image)
              1 _ _ ltac:(by_evaluation) Hrun) as (Hpoll & Hgo & _).
  eexists. split; [ exact Hrun | ]. split; [ exact Hpoll | exact Hgo ].
Defined.

(** X7, with 64 KiB pages. *)
Lemma align_down_pow2_witness :
  align_down 0xffff000008b1abcd (2 ^ 16) = 0xffff000008b10000
  /\ align_down (align_down 0xffff000008b1abcd (2 ^ 16)) (2 ^ 16)
     = align_down 0xffff000008b1abcd (2 ^ 16).
Proof.
  destruct (align_down_pow2 0xffff000008b1abcd 16 ltac:(by_evaluation))
    as (Hform & _ & Hidem).
  split; [ rewrite Hform; by_evaluation | exact Hidem ].
Defined.

(** X8, on [adrp x0, D] of [site_far]: the old offset 0x110000 from the
    page of the replacement address and the new offset 0xB7F000 from the
    page of the final address lead to the same page. *)
Lemma adrp_keeps_target_witness :
  u64 (0xB7F000 + align_down 0xffff000008091004 SZ_4K)
  = u64 (0x110000 + align_down 0xffff000008b00004 SZ_4K)
  /\ 0xB7F000 mod 4096 = 0.
Proof.
  destruct (adrp_keeps_target (codec := A64.codec)
              (image := Sample.boot_image) Sample.site_far
              0xffff000008091004 0xffff000008b00004
              (mem Sample.boot_state) 0x90000880
              ltac:(by_evaluation) ltac:(by_evaluation)
              ltac:(by_evaluation) ltac:(by_evaluation))
    as (_ & _ & Hreach & Hpages).
  split.
  - apply Hreach. by_evaluation.
  - apply Hpages. by_evaluation.
Defined.

(** X9, on [b F] of [site_far]: the word changes, and [F] is in kernel
    text. *)
Lemma only_external_targets_rewritten_witness :
  known_region (image := Sample.boot_image)
    (branch_target (codec := A64.codec) 0xffff000008b00000
       (load_le32 (mem Sample.boot_state) 0xffff000008b00000))
  \/ aarch64_insn_is_adrp (InsnCodec := A64.codec)
       (load_le32 (mem Sample.boot_state) 0xffff000008b00000) = true.
Proof.
  destruct (only_external_targets_rewritten
              (codec := A64.codec) (image := Sample.boot_image)
              Sample.site_far 0xffff000008091000 0xffff000008b00000
              (mem Sample.boot_state) 0x1405BC00
              ltac:(by_evaluation) ltac:(by_evaluation))
    as [(_ & Hknown & _) | (_ & Hp & _)].
  - left. exact Hknown.
  - right. exact Hp.
Defined.

(** X10, on [site_far] written in place: both words stored are
    [get_alt_insn] of the words of the block in the boot state, and the
    block still holds them. *)
Lemma patch_from_disjoint_block_witness :
  exists st',
    apply_alt_instr (codec := A64.codec) (image := Sample.boot_image)
      false Sample.site_far Sample.boot_state = Done st'
    /\ load_le32 (mem st') 0xffff000008b00000 = 0x17DC0000
    /\ forall j, 0 <= j < 8 ->
         mem st' (u64 (0xffff000008b00000 + j))
         = mem Sample.boot_state (u64 (0xffff000008b00000 + j)).
Proof.
  assert (Hrun : apply_alt_instr (codec := A64.codec)
                   (image := Sample.boot_image) false Sample.site_far
                   Sample.boot_state
                 = Done (state_of
                           (apply_alt_instr (codec := A64.codec)
                              (image := Sample.boot_image) false
                              Sample.site_far Sample.boot_state)))
    by by_evaluation.
  destruct (patch_from_disjoint_block
              (codec := A64.codec) (image := Sample.boot_image)
              false Sample.site_far _ _
              ltac:(by_evaluation) ltac:(by_evaluation)
              ltac:(apply block_disjoint_apart;
                    [ by_evaluation | by_evaluation | by_evaluation
                    | by_evaluation | left; by_evaluation ])
              Hrun) as (_ & Hblock).
  eexists. split; [ exact Hrun | ]. split; [ by_evaluation | exact Hblock ].
Defined.

(** X11, on [site_odd], one [nop]: the site is applied and the four bytes
    of the word arrive at the destination. *)
Lemma plain_block_is_copied_witness :
  exists st',
    apply_alt_instr (codec := A64.codec) (image := Sample.boot_image)
      false Sample.site_odd Sample.boot_state = Done st'
    /\ forall j, 0 <= j < 4 ->
         mem st' (u64 (0xffff000008094000 + j))
         = mem Sample.boot_state (u64 (0xffff000008b00018 + j)).
Proof.
  destruct (plain_block_is_copied
              (codec := A64.codec) (image := Sample.boot_image)
              false Sample.site_odd Sample.boot_state
              ltac:(by_evaluation) ltac:(by_evaluation) ltac:(by_evaluation))
    as (st' & Hrun & Hcopy).
  - apply block_disjoint_apart;
      [ by_evaluation | by_evaluation | by_evaluation | by_evaluation
      | left; by_evaluation ].
  - intros k Hk.
    assert (E : k = 0) by (change (alt_len Sample.site_odd / 4) with 1 in Hk; lia).
    subst k. repeat split; by_evaluation.
  - exists st'. split; [ exact Hrun | exact Hcopy ].
Defined.

(** X12, on [site_far] written in place twice. *)
Lemma apply_twice_same_memory_witness :
  exists st1 st2,
    apply_alt_instr (codec := A64.codec) (image := Sample.boot_image)
      false Sample.site_far Sample.boot_state = Done st1
    /\ apply_alt_instr (codec := A64.codec) (image := Sample.boot_image)
         false Sample.site_far st1 = Done st2
    /\ forall a, mem st2 a = mem st1 a.
Proof.
  assert (Hrun : apply_alt_instr (codec := A64.codec)
                   (image := Sample.boot_image) false Sample.site_far
                   Sample.boot_state
                 = Done (state_of
                           (apply_alt_instr (codec := A64.codec)
                              (image := Sample.boot_image) false
                              Sample.site_far Sample.boot_state)))
    by by_evaluation.
  destruct (apply_twice_same_memory
              (codec := A64.codec) (image := Sample.boot_image)
              false Sample.site_far _ _
              ltac:(by_evaluation) ltac:(by_evaluation)
              ltac:(apply block_disjoint_apart;
                    [ by_evaluation | by_evaluation | by_evaluation
                    | by_evaluation | left; by_evaluation ])
              Hrun) as (st2 & Hagain & Hsame).
  eexists. exists st2.
  split; [ exact Hrun | ]. split; [ exact Hagain | exact Hsame ].
Defined.

(** X13, on [b F] of [site_far]: the instruction moves down by 0xA6F000
    bytes, and the offset -0x900000 becomes 0x16F000. *)
Lemma relocated_offset_is_shifted_witness :
  get_alt_insn (codec := A64.codec) (image := Sample.boot_image)
    Sample.site_far 0xffff000008091000 0xffff000008b00000
    (mem Sample.boot_state)
  = Some (A64.set_branch_offset
            0x17DC0000
            (s32 (-0x900000 + (0xffff000008b00000 - 0xffff000008091000))))
  /\ s32 (-0x900000 + (0xffff000008b00000 - 0xffff000008091000)) = 0x16F000.
Proof.
  destruct (relocated_offset_is_shifted
              (codec := A64.codec) (image := Sample.boot_image)
              Sample.site_far 0xffff000008091000 0xffff000008b00000
              (mem Sample.boot_state) 0x17DC0000 ltac:(by_evaluation))
    as (Hbranch & _).
  destruct (Hbranch ltac:(by_evaluation) ltac:(by_evaluation)) as (Hget & _).
  split; [ exact Hget | by_evaluation ].
Defined.
